(** * Portfolio backend (main.py): resume context, chat proxy, stores

    A shallow embedding of [main.py].  Python [str] values are modelled as
    [string] (the UTF-8 bytes of the text; substring search on valid UTF-8
    agrees with substring search on code points).  The two MongoDB
    collections are ordered lists of stored documents.  Everything the
    service does not own (the upstream HTTP API, the clock, storage faults,
    Python's [str()] of decoded JSON) is gathered in an environment record
    that every handler receives explicitly. *)

From Stdlib Require Import String Ascii List ZArith NArith Bool Arith Lia.
From Stdlib Require Import DecimalString Sorting.Sorted Sorting.Permutation.
Import ListNotations.

Local Open Scope list_scope.
Local Open Scope string_scope.

(* ===================================================================== *)
(** ** Strings *)

Definition LF : string := String "010"%char EmptyString.

(** [sep.join(parts)] *)
Definition join (sep : string) (parts : list string) : string :=
  String.concat sep parts.

(** [s[i:]] *)
Fixpoint drop (i : nat) (s : string) : string :=
  match i, s with
  | O, _ => s
  | S _, EmptyString => EmptyString
  | S j, String _ t => drop j t
  end.

(** [needle] occurs in [hay] starting at offset [i]. *)
Definition occurs_at (needle hay : string) (i : nat) : bool :=
  Nat.leb i (String.length hay) && String.prefix needle (drop i hay).

(** Number of offsets of [hay] at which [needle] occurs. *)
Fixpoint occurrences (needle hay : string) : nat :=
  (if String.prefix needle hay then 1 else 0) +
  match hay with
  | EmptyString => 0
  | String _ t => occurrences needle t
  end.

(** Formatting of a value fetched with [dict.get(key)] inside an f-string:
    a missing key yields [None], which renders as the text [None]. *)
Definition fmt (v : option string) : string :=
  match v with
  | Some s => s
  | None => "None"
  end.

(** [dict.get(key, default)] for a key that may be absent. *)
Definition get_default {A : Type} (v : option A) (default : A) : A :=
  match v with
  | Some a => a
  | None => default
  end.

(* ===================================================================== *)
(** ** Data model *)

(** Storage-internal identifier; [str(ObjectId)] is its 24 hex digits. *)
Definition ObjectId := N.

Definition hex_digit (n : N) : ascii :=
  match n with
  | 0%N => "0" | 1%N => "1" | 2%N => "2" | 3%N => "3"
  | 4%N => "4" | 5%N => "5" | 6%N => "6" | 7%N => "7"
  | 8%N => "8" | 9%N => "9" | 10%N => "a" | 11%N => "b"
  | 12%N => "c" | 13%N => "d" | 14%N => "e" | _ => "f"
  end%char.

Fixpoint hex_digits (width : nat) (n : N) (acc : string) : string :=
  match width with
  | O => acc
  | S w => hex_digits w (N.div n 16) (String (hex_digit (N.modulo n 16)) acc)
  end.

Definition str_ObjectId (o : ObjectId) : string := hex_digits 24 o EmptyString.

(** A document as the collection holds it: the body plus its [_id]. *)
Record Stored (A : Type) : Type := mkStored { _id : ObjectId; body : A }.
Arguments mkStored {A} _ _.
Arguments _id {A} _.
Arguments body {A} _.

(** A document as an endpoint returns it, after [doc["_id"] = str(doc["_id"])]. *)
Record Returned (A : Type) : Type := mkReturned { id_str : string; content : A }.
Arguments mkReturned {A} _ _.
Arguments id_str {A} _.
Arguments content {A} _.

Definition stringify_id {A : Type} (d : Stored A) : Returned A :=
  mkReturned (str_ObjectId (_id d)) (body d).

(** The resume document.  Every key read with [.get] may be absent. *)
Record PersonalInfo : Type := mkPersonalInfo {
  name : option string;
  title : option string;
  email : option string;
  mobile : option string;
  location : option string
}.

Record EducationEntry : Type := mkEducation {
  degree : option string;
  status : option string;
  institution : option string
}.

Record Project : Type := mkProject {
  project_name : option string;      (* key "name" *)
  description : option string;
  technologies : list string
}.

Record ResumeDocument : Type := mkResume {
  personal_info : option PersonalInfo;
  education : option (list EducationEntry);
  skills : option (list (string * list string));   (* dict, insertion ordered *)
  projects : option (list Project);
  about : option string
}.

Definition empty_personal : PersonalInfo := mkPersonalInfo None None None None None.

(** A [skills] dict has pairwise distinct keys. *)
Definition well_formed (r : ResumeDocument) : Prop :=
  NoDup (map fst (get_default (skills r) [])).

(* ===================================================================== *)
(** ** Context Builder: [get_resume_context]

    The argument is the result of [resume_collection.find_one()]. *)

Definition context_header (personal : PersonalInfo) : string :=
  LF ++ "You are an AI assistant for " ++ get_default (name personal) "the candidate"
  ++ "'s portfolio website. Answer questions about their background, skills, and experience professionally and concisely."
  ++ LF ++ LF
  ++ "Name: " ++ fmt (name personal) ++ LF
  ++ "Title: " ++ fmt (title personal) ++ LF
  ++ "Email: " ++ fmt (email personal) ++ LF
  ++ "Mobile: " ++ fmt (mobile personal) ++ LF
  ++ "Location: " ++ get_default (location personal) "Not specified" ++ LF
  ++ LF
  ++ "Education:" ++ LF.

Definition closing_instruction : string :=
  LF ++ "Answer questions naturally and professionally. If asked about something not mentioned here, politely indicate that information is not available.".

Definition get_resume_context (found : option (Stored ResumeDocument)) : string :=
  match found with
  | None => "No resume data available."
  | Some doc =>
    let resume := body doc in
    let personal := get_default (personal_info resume) empty_personal in
    let education := get_default (education resume) [] in
    let skills := get_default (skills resume) [] in
    let projects := get_default (projects resume) [] in
    let about := get_default (about resume) EmptyString in
    let context := context_header personal in
    let context :=
      fold_left (fun (context : string) edu =>
        context ++ ("- " ++ fmt (degree edu) ++ " - " ++ fmt (status edu) ++ LF))
        education context in
    let context := context ++ (LF ++ "Skills:" ++ LF) in
    let context :=
      fold_left (fun (context : string) '(category, skill_list) =>
        context ++ ("- " ++ category ++ ": " ++ join ", " skill_list ++ LF))
        skills context in
    let context := context ++ (LF ++ "Projects:" ++ LF) in
    let context :=
      fold_left (fun (context : string) proj =>
        context ++ ("- " ++ fmt (project_name proj) ++ ": " ++ fmt (description proj) ++ LF))
        projects context in
    let context := context ++ (LF ++ "About:" ++ LF ++ about ++ LF) in
    let context := context ++ closing_instruction in
    context
  end.

(** The document [initialize_resume] seeds. *)
Definition seed_resume : ResumeDocument := {|
  personal_info := Some {|
    name := Some "Aditya Avinash Mane";
    title := Some "Full Stack Developer & MCA Student";
    email := Some "adityamane4650@gmail.com";
    mobile := Some "+91 9673594650";
    location := Some "India" |};
  education := Some [
    {| degree := Some "Master of Computer Applications (MCA)";
       status := Some "Currently in Final Year (2nd Year)";
       institution := Some "University Name" |};
    {| degree := Some "Bachelor of Computer Applications (BCA)";
       status := Some "Completed";
       institution := Some "University Name" |} ];
  skills := Some [
    ("Frontend", ["React"; "Next.js"; "TypeScript"; "JavaScript"; "HTML"; "CSS"; "Tailwind CSS"]);
    ("Backend", ["Python"; "FastAPI"; "Node.js"; "Nest.js"; "Express"]);
    ("Database", ["MongoDB"; "PostgreSQL"; "MySQL"]);
    ("AI/ML", ["OpenAI"; "OpenRouter API Integration"]);
    ("Tools", ["Git"; "Docker"; "VS Code"]);
    ("Other", ["REST APIs"; "Responsive Design"; "Full Stack Development"]) ];
  projects := Some [
    {| project_name := Some "AI-Powered Portfolio";
       description := Some "Interactive portfolio website with AI chat functionality using React, TypeScript, Python FastAPI, MongoDB, and OpenRouter API";
       technologies := ["React"; "TypeScript"; "Python"; "FastAPI"; "MongoDB"; "OpenRouter"] |};
    {| project_name := Some "Full Stack Web Applications";
       description := Some "Built various web applications using modern tech stack";
       technologies := ["React"; "Node.js"; "Express"; "MongoDB"] |} ];
  about := Some "Aditya is a passionate Full Stack Developer currently pursuing his Master's in Computer Applications. With a strong foundation in both frontend and backend technologies, he specializes in building modern, responsive web applications. He has hands-on experience with AI integration, database management, and creating seamless user experiences."
|}.

(* ===================================================================== *)
(** ** Python values, exceptions and the result of a call *)

(** A decoded JSON value, as [response.json()] returns it. *)
#[local] Unset Elimination Schemes.
Inductive jvalue : Type :=
| JNull
| JBool (b : bool)
| JInt (z : Z)
| JFloat (literal : string)
| JStr (s : string)
| JArr (items : list jvalue)
| JObj (members : list (string * jvalue)).
#[local] Set Elimination Schemes.

Inductive py_key : Type :=
| KStr (s : string)
| KInt (z : Z).

(** Exceptions.  [External] is raised by a collaborator (httpx transport,
    JSON decoding, pymongo, pydantic) and carries that library's message. *)
Inductive exn : Type :=
| KeyError (key : py_key)
| IndexError (msg : string)
| TypeError (msg : string)
| External (msg : string)
| HTTPException (status_code : Z) (detail : string).

Inductive result (A : Type) : Type :=
| Ok (a : A)
| Raise (e : exn).
Arguments Ok {A} _.
Arguments Raise {A} _.

Definition str_Z (z : Z) : string :=
  NilZero.string_of_int (Z.to_int z).

(** [repr] of a subscript.  The string keys used by this program are plain
    identifiers, whose [repr] is the key between single quotes. *)
Definition repr_key (k : py_key) : string :=
  match k with
  | KStr s => "'" ++ s ++ "'"
  | KInt z => str_Z z
  end.

(** [str(e)] *)
Definition str_exn (e : exn) : string :=
  match e with
  | KeyError k => repr_key k
  | IndexError msg => msg
  | TypeError msg => msg
  | External msg => msg
  | HTTPException c d => str_Z c ++ ": " ++ d
  end.

Definition type_name (v : jvalue) : string :=
  match v with
  | JNull => "NoneType"
  | JBool _ => "bool"
  | JInt _ => "int"
  | JFloat _ => "float"
  | JStr _ => "str"
  | JArr _ => "list"
  | JObj _ => "dict"
  end.

Fixpoint dict_lookup {A : Type} (key : string) (members : list (string * A)) : option A :=
  match members with
  | [] => None
  | (k, v) :: rest => if String.eqb k key then Some v else dict_lookup key rest
  end.

Definition not_subscriptable (v : jvalue) : exn :=
  TypeError ("'" ++ type_name v ++ "' object is not subscriptable").

(** [v[key]] for a string key. *)
Definition getitem_str (v : jvalue) (key : string) : result jvalue :=
  match v with
  | JObj members =>
      match dict_lookup key members with
      | Some x => Ok x
      | None => Raise (KeyError (KStr key))
      end
  | JArr _ => Raise (TypeError "list indices must be integers or slices, not str")
  | JStr _ => Raise (TypeError "string indices must be integers, not 'str'")
  | _ => Raise (not_subscriptable v)
  end.

(** Number of bytes of the code point that starts with byte [c]. *)
Definition utf8_width (c : ascii) : nat :=
  let n := nat_of_ascii c in
  if Nat.ltb n 128 then 1 else if Nat.ltb n 224 then 2 else if Nat.ltb n 240 then 3 else 4.

(** [v[0]] *)
Definition getitem_0 (v : jvalue) : result jvalue :=
  match v with
  | JObj _ => Raise (KeyError (KInt 0))
  | JArr items =>
      match items with
      | x :: _ => Ok x
      | [] => Raise (IndexError "list index out of range")
      end
  | JStr s =>
      match s with
      | String c _ => Ok (JStr (String.substring 0 (utf8_width c) s))
      | EmptyString => Raise (IndexError "string index out of range")
      end
  | _ => Raise (not_subscriptable v)
  end.

(** What a collaborator hands back: a value, or the message of the exception
    it raised. *)
Definition external {A : Type} (r : A + string) : result A :=
  match r with
  | inl a => Ok a
  | inr msg => Raise (External msg)
  end.

Definition bind_result {A B : Type} (r : result A) (f : A -> result B) : result B :=
  match r with
  | Ok a => f a
  | Raise e => Raise e
  end.

(* ===================================================================== *)
(** ** Stores, environment and world *)

Record ChatExchange : Type := mkChatExchange {
  user_message : string;
  ai_response : jvalue;
  timestamp : string
}.

Record ChatMessage : Type := mkChatMessage { message : string }.

Record ChatResponse : Type := mkChatResponse {
  response : string;
  response_timestamp : string        (* field "timestamp" *)
}.

(** The request [client.post] sends. *)
Record Request : Type := mkRequest {
  url : string;
  authorization : string;
  content_type : string;
  model : string;
  system_content : string;
  user_content : string;
  timeout : Z
}.

(** The reply of the chat-completion API.  [json] is the outcome of
    [response.json()]: the decoded body, or the decoder's message when the
    body is not JSON. *)
Record Response : Type := mkResponse {
  status_code : Z;
  text : string;
  json : jvalue + string
}.

Inductive db_op : Type :=
| ResumeCount | ResumeInsert | ResumeFind | ResumeReplace
| ChatInsert | ChatFind.

(** What the service does not control. *)
Record Env : Type := mkEnv {
  OPENROUTER_API_KEY : option string;        (* os.getenv *)
  upstream : Request -> Response + string;   (* the reply, or a transport failure *)
  utcnow : nat -> string;                    (* ISO text of the n-th clock reading *)
  db_fault : db_op -> option string;         (* a storage operation that fails *)
  py_str : jvalue -> string                  (* Python's str() of a decoded value *)
}.

Record World : Type := mkWorld {
  resume_collection : list (Stored ResumeDocument);
  chats_collection : list (Stored ChatExchange);
  next_id : N;                 (* ObjectId generator *)
  clock_reads : nat;           (* clock readings taken so far *)
  outbound : list Request      (* requests sent upstream, oldest first *)
}.

(** State and exception monad: a raised exception keeps the effects that
    happened before it. *)
Definition M (A : Type) : Type := World -> result A * World.

Definition ret {A : Type} (a : A) : M A := fun w => (Ok a, w).
Definition raise {A : Type} (e : exn) : M A := fun w => (Raise e, w).
Definition bind {A B : Type} (m : M A) (f : A -> M B) : M B :=
  fun w =>
    match m w with
    | (Ok a, w') => f a w'
    | (Raise e, w') => (Raise e, w')
    end.
Definition lift {A : Type} (r : result A) : M A := fun w => (r, w).
(** [try: m  except Exception as e: h e] *)
Definition try_except {A : Type} (m : M A) (h : exn -> M A) : M A :=
  fun w =>
    match m w with
    | (Ok a, w') => (Ok a, w')
    | (Raise e, w') => h e w'
    end.

Notation "x <- m ;; k" := (bind m (fun x => k))
  (at level 61, m at next level, right associativity).
Notation "m ;;; k" := (bind m (fun _ => k))
  (at level 61, right associativity).

(** A storage operation fails when the environment says so. *)
Definition db (env : Env) (op : db_op) : M unit :=
  match db_fault env op with
  | Some msg => raise (External msg)
  | None => ret tt
  end.

Definition now_isoformat (env : Env) : M string :=
  fun w => (Ok (utcnow env (clock_reads w)),
            mkWorld (resume_collection w) (chats_collection w) (next_id w)
                    (S (clock_reads w)) (outbound w)).

Definition set_resume (docs : list (Stored ResumeDocument)) (fresh : N) : M unit :=
  fun w => (Ok tt, mkWorld docs (chats_collection w) fresh (clock_reads w) (outbound w)).

Definition set_chats (docs : list (Stored ChatExchange)) (fresh : N) : M unit :=
  fun w => (Ok tt, mkWorld (resume_collection w) docs fresh (clock_reads w) (outbound w)).

(** [collection.count_documents({})] *)
Definition resume_count_documents (env : Env) : M nat :=
  db env ResumeCount ;;; fun w => (Ok (List.length (resume_collection w)), w).

(** [collection.insert_one(doc)] *)
Definition resume_insert_one (env : Env) (doc : ResumeDocument) : M unit :=
  db env ResumeInsert ;;;
  fun w => set_resume (resume_collection w ++ [mkStored (next_id w) doc])%list
                      (N.succ (next_id w)) w.

Definition chats_insert_one (env : Env) (doc : ChatExchange) : M unit :=
  db env ChatInsert ;;;
  fun w => set_chats (chats_collection w ++ [mkStored (next_id w) doc])%list
                     (N.succ (next_id w)) w.

(** [collection.find_one()] : the first document, or [None]. *)
Definition resume_find_one (env : Env) : M (option (Stored ResumeDocument)) :=
  db env ResumeFind ;;; fun w => (Ok (List.hd_error (resume_collection w)), w).

Definition ResumeDocument_eq_dec (a b : ResumeDocument) : {a = b} + {a <> b}.
Proof. repeat decide equality. Defined.

Record UpdateResult : Type := mkUpdateResult {
  matched_count : nat;
  modified_count : nat;
  upserted_id : option ObjectId
}.

(** [collection.replace_one({}, doc, upsert=True)]: the empty filter matches
    the first document, whose body is replaced and whose [_id] is kept; with
    nothing to match the document is inserted.  A replacement equal to the
    stored body counts as matched but not modified. *)
Definition resume_replace_one_upsert (env : Env) (doc : ResumeDocument) : M UpdateResult :=
  db env ResumeReplace ;;;
  fun w =>
    match resume_collection w with
    | first :: rest =>
        (set_resume (mkStored (_id first) doc :: rest) (next_id w) ;;;
         ret (mkUpdateResult 1 (if ResumeDocument_eq_dec (body first) doc then 0 else 1) None)) w
    | [] =>
        (set_resume [mkStored (next_id w) doc] (N.succ (next_id w)) ;;;
         ret (mkUpdateResult 0 0 (Some (next_id w)))) w
    end.

(** [cursor.sort("timestamp", -1)]: descending, strings compared bytewise;
    documents with equal timestamps keep their stored order. *)
Fixpoint insert_desc (d : Stored ChatExchange) (l : list (Stored ChatExchange))
  : list (Stored ChatExchange) :=
  match l with
  | [] => [d]
  | x :: rest =>
      if String.leb (timestamp (body x)) (timestamp (body d))
      then d :: x :: rest
      else x :: insert_desc d rest
  end.

Fixpoint sort_timestamp_desc (l : list (Stored ChatExchange)) : list (Stored ChatExchange) :=
  match l with
  | [] => []
  | d :: rest => insert_desc d (sort_timestamp_desc rest)
  end.

(** [cursor.limit(n)]: 0 means no limit; a negative [n] means [abs(n)]. *)
Definition cursor_limit {A : Type} (n : Z) (l : list A) : list A :=
  if Z.eqb n 0 then l else firstn (Z.abs_nat n) l.

(** [list(chats_collection.find().sort("timestamp", -1).limit(limit))] *)
Definition chats_find_sorted (env : Env) (limit : Z) : M (list (Stored ChatExchange)) :=
  db env ChatFind ;;;
  fun w => (Ok (cursor_limit limit (sort_timestamp_desc (chats_collection w))), w).

(* ===================================================================== *)
(** ** Startup *)

Definition initialize_resume (env : Env) : M unit :=
  n <- resume_count_documents env ;;
  if Nat.eqb n 0 then resume_insert_one env seed_resume else ret tt.

(* ===================================================================== *)
(** ** Chat Proxy: [POST /api/chat] *)

Definition placeholder_key : string := "your_openrouter_api_key_here".

Definition configuration_detail : string :=
  "OpenRouter API key not configured. Please add your API key to backend/.env file. Get a free key at https://openrouter.ai/".

(** [client.post(...)]: the request leaves, then the reply or a transport
    exception comes back. *)
Definition post (env : Env) (req : Request) : M Response :=
  fun w =>
    (external (upstream env req),
     mkWorld (resume_collection w) (chats_collection w) (next_id w)
             (clock_reads w) (outbound w ++ [req])%list).

(** [response.json()["choices"][0]["message"]["content"]] *)
Definition completion_content (resp : Response) : result jvalue :=
  bind_result (external (json resp)) (fun body =>
  bind_result (getitem_str body "choices") (fun choices =>
  bind_result (getitem_0 choices) (fun choice =>
  bind_result (getitem_str choice "message") (fun msg =>
  getitem_str msg "content")))).

(** [ChatResponse(response=..., timestamp=...)]: the model declares
    [response: str]; validation raises for anything that is not a string. *)
Definition make_ChatResponse (ai_response : jvalue) (timestamp : string) : result ChatResponse :=
  match ai_response with
  | JStr s => Ok (mkChatResponse s timestamp)
  | _ => Raise (External "1 validation error for ChatResponse")
  end.

(** The arguments of [client.post]. *)
Definition completion_request (api_key context user_message : string) : Request := {|
  url := "https://openrouter.ai/api/v1/chat/completions";
  authorization := "Bearer " ++ api_key;
  content_type := "application/json";
  model := "openrouter/auto:free";
  system_content := context;
  user_content := user_message;
  timeout := 30 |}.

(** The inner [try]: stamp the exchange and append it to the history; on
    any failure take a new stamp and carry on. *)
Definition record_exchange (env : Env) (chat_message : ChatMessage) (ai_response : jvalue)
  : M string :=
  try_except
    (timestamp <- now_isoformat env ;;
     chats_insert_one env
       (mkChatExchange (message chat_message) ai_response timestamp) ;;;
     ret timestamp)
    (fun db_error => now_isoformat env).

(** What [chat] does with the reply of the upstream API. *)
Definition handle_response (env : Env) (chat_message : ChatMessage) (resp : Response)
  : M ChatResponse :=
  if negb (Z.eqb (status_code resp) 200)
  then
    error_detail <-
      (if negb (String.eqb (text resp) EmptyString)
       then lift (bind_result (external (json resp)) (fun v => Ok (py_str env v)))
       else ret "AI service error") ;;
    raise (HTTPException 500 ("AI service error: " ++ error_detail))
  else
    ai_response <- lift (completion_content resp) ;;
    timestamp <- record_exchange env chat_message ai_response ;;
    lift (make_ChatResponse ai_response timestamp).

(** The body of the outer [try]. *)
Definition chat_try (env : Env) (chat_message : ChatMessage) : M ChatResponse :=
  match OPENROUTER_API_KEY env with
  | None => raise (HTTPException 500 configuration_detail)
  | Some api_key =>
    if String.eqb api_key EmptyString || String.eqb api_key placeholder_key
    then raise (HTTPException 500 configuration_detail)
    else
      found <- resume_find_one env ;;
      resp <- post env (completion_request api_key (get_resume_context found)
                                           (message chat_message)) ;;
      handle_response env chat_message resp
  end.

Definition chat (env : Env) (chat_message : ChatMessage) : M ChatResponse :=
  try_except (chat_try env chat_message)
    (fun e =>
      match e with
      | HTTPException _ _ => raise e
      | _ => raise (HTTPException 500 (str_exn e))
      end).

(** The error taxonomy, read off the raise sites. *)
Definition ConfigurationError : exn := HTTPException 500 configuration_detail.
Definition UpstreamError (error_detail : string) : exn :=
  HTTPException 500 ("AI service error: " ++ error_detail).

(* ===================================================================== *)
(** ** The other endpoints *)

(** [except Exception as e: raise HTTPException(status_code=500, detail=str(e))] *)
Definition server_error {A : Type} (m : M A) : M A :=
  try_except m (fun e => raise (HTTPException 500 (str_exn e))).

(** [GET /] *)
Definition read_root : string := "Portfolio API is running".

(** [GET /api/chat/history] *)
Definition default_limit : Z := 10.

Definition get_chat_history (env : Env) (limit : Z) : M (list (Returned ChatExchange)) :=
  server_error
    (chats <- chats_find_sorted env limit ;;
     ret (map stringify_id chats)).

(** The query parameter [limit: int = 10]. *)
Definition history_limit (query : option Z) : Z := get_default query default_limit.

(** [GET /api/resume] *)
Inductive ResumeReply : Type :=
| ResumeFound (resume : Returned ResumeDocument)
| ResumeMissing (message : string).

Definition get_resume (env : Env) : M ResumeReply :=
  server_error
    (resume <- resume_find_one env ;;
     ret (match resume with
          | Some doc => ResumeFound (stringify_id doc)
          | None => ResumeMissing "No resume data found"
          end)).

(** [PUT /api/resume] *)
Record UpdateReply : Type := mkUpdateReply {
  reply_message : string;
  modified : nat
}.

Definition update_resume (env : Env) (resume_data : ResumeDocument) : M UpdateReply :=
  server_error
    (result <- resume_replace_one_upsert env resume_data ;;
     ret (mkUpdateReply "Resume updated successfully" (modified_count result))).

(** Everything the system does to its world. *)
Inductive operation : Type :=
| Startup
| GetRoot
| PostChat (chat_message : ChatMessage)
| GetChatHistory (limit : Z)
| GetResume
| PutResume (resume_data : ResumeDocument).

Definition run (env : Env) (op : operation) (w : World) : World :=
  match op with
  | Startup => snd (initialize_resume env w)
  | GetRoot => w
  | PostChat m => snd (chat env m w)
  | GetChatHistory limit => snd (get_chat_history env limit w)
  | GetResume => snd (get_resume env w)
  | PutResume d => snd (update_resume env d w)
  end.

(** A history of the service: each operation with the surroundings it ran in. *)
Definition run_all (ops : list (Env * operation)) (w : World) : World :=
  fold_left (fun w step => run (fst step) (snd step) w) ops w.

(* ===================================================================== *)
(** ** The context as the specification words it

    A second rendering, written section by section, against which the
    accumulating loops of [get_resume_context] are compared. *)

Definition bullet (line : string) : string := "- " ++ line ++ LF.

Definition bullets (lines : list string) : string :=
  String.concat EmptyString (map bullet lines).

Definition role_framing (personal : PersonalInfo) : string :=
  "You are an AI assistant for " ++ get_default (name personal) "the candidate"
  ++ "'s portfolio website. Answer questions about their background, skills, and experience professionally and concisely."
  ++ LF.

Definition personal_fields (personal : PersonalInfo) : string :=
  "Name: " ++ fmt (name personal) ++ LF
  ++ "Title: " ++ fmt (title personal) ++ LF
  ++ "Email: " ++ fmt (email personal) ++ LF
  ++ "Mobile: " ++ fmt (mobile personal) ++ LF
  ++ "Location: " ++ get_default (location personal) "Not specified" ++ LF.

Definition education_line (edu : EducationEntry) : string :=
  fmt (degree edu) ++ " - " ++ fmt (status edu).

Definition skill_line (entry : string * list string) : string :=
  fst entry ++ ": " ++ join ", " (snd entry).

Definition project_line (proj : Project) : string :=
  fmt (project_name proj) ++ ": " ++ fmt (description proj).

Definition education_section (entries : list EducationEntry) : string :=
  "Education:" ++ LF ++ bullets (map education_line entries).

Definition skills_section (entries : list (string * list string)) : string :=
  "Skills:" ++ LF ++ bullets (map skill_line entries).

Definition projects_section (entries : list Project) : string :=
  "Projects:" ++ LF ++ bullets (map project_line entries).

Definition about_section (bio : string) : string :=
  "About:" ++ LF ++ bio ++ LF.

Definition rendered_sections (r : ResumeDocument) : string :=
  let personal := get_default (personal_info r) empty_personal in
  LF ++ role_framing personal
  ++ LF ++ personal_fields personal
  ++ LF ++ education_section (get_default (education r) [])
  ++ LF ++ skills_section (get_default (skills r) [])
  ++ LF ++ projects_section (get_default (projects r) [])
  ++ LF ++ about_section (get_default (about r) EmptyString)
  ++ closing_instruction.

(** The names of a resume in input order: skill categories, then project
    names (a project without a name is rendered as [None]). *)
Definition names_in_order (r : ResumeDocument) : list string :=
  (map fst (get_default (skills r) []) ++
   map (fun p => fmt (project_name p)) (get_default (projects r) []))%list.

(** Offsets of the names inside consecutive bullet lines that start at
    offset [start]. *)
Fixpoint line_offsets (start : nat) (lines : list string) : list nat :=
  match lines with
  | [] => []
  | l :: rest => (start + 2) :: line_offsets (start + String.length (bullet l)) rest
  end.

Definition before_skills (r : ResumeDocument) : string :=
  let personal := get_default (personal_info r) empty_personal in
  LF ++ role_framing personal
  ++ LF ++ personal_fields personal
  ++ LF ++ education_section (get_default (education r) [])
  ++ LF ++ "Skills:" ++ LF.

Definition between_skills_and_projects : string := LF ++ "Projects:" ++ LF.

Definition after_projects (r : ResumeDocument) : string :=
  LF ++ about_section (get_default (about r) EmptyString) ++ closing_instruction.

(** Offsets at which the names of [names_in_order] stand in the context. *)
Definition name_offsets (r : ResumeDocument) : list nat :=
  let skill_lines := map skill_line (get_default (skills r) []) in
  let project_lines := map project_line (get_default (projects r) []) in
  let skills_start := String.length (before_skills r) in
  let projects_start :=
    skills_start + String.length (bullets skill_lines)
    + String.length between_skills_and_projects in
  (line_offsets skills_start skill_lines ++ line_offsets projects_start project_lines)%list.

(** A small, well-formed resume whose only skill category is also the
    first word of its only project's name. *)
Definition python_resume : ResumeDocument := {|
  personal_info := Some {|
    name := Some "Ada";
    title := Some "Developer";
    email := Some "ada@example.org";
    mobile := Some "+1 555 0100";
    location := None |};
  education := Some [];
  skills := Some [("Python", ["FastAPI"])];
  projects := Some [
    {| project_name := Some "Python CLI";
       description := Some "A command line tool";
       technologies := ["Click"] |} ];
  about := Some "Ada writes tools."
|}.

(* ===================================================================== *)
(** ** Vocabulary of the statements about the chat proxy *)

(** The credential is present and is not the placeholder. *)
Definition configured (env : Env) (api_key : string) : Prop :=
  OPENROUTER_API_KEY env = Some api_key
  /\ api_key <> EmptyString
  /\ api_key <> placeholder_key.

(** The world once [req] has been sent. *)
Definition sent (req : Request) (w : World) : World :=
  mkWorld (resume_collection w) (chats_collection w) (next_id w)
          (clock_reads w) (outbound w ++ [req])%list.

(** The request [chat] builds in world [w]. *)
Definition request_in (api_key : string) (chat_message : ChatMessage) (w : World) : Request :=
  completion_request api_key
    (get_resume_context (hd_error (resume_collection w)))
    (message chat_message).

(** The upstream API answers the request of [chat] with [resp]. *)
Definition replies (env : Env) (api_key : string) (chat_message : ChatMessage)
           (w : World) (resp : Response) : Prop :=
  db_fault env ResumeFind = None
  /\ upstream env (request_in api_key chat_message w) = inl resp.

(** The world after one more clock reading. *)
Definition tick (w : World) : World :=
  mkWorld (resume_collection w) (chats_collection w) (next_id w)
          (S (clock_reads w)) (outbound w).

Definition is_http (e : exn) : Prop := exists c d, e = HTTPException c d.

(** Concrete surroundings for the examples below. *)
Definition sample_key : string := "sk-or-v1-5f2c".

Definition sample_clock (n : nat) : string :=
  "2024-05-01T10:00:0" ++ str_Z (Z.of_nat n).

Definition sample_env (key : option string) (reply : Response + string)
           (fault : db_op -> option string) : Env :=
  mkEnv key (fun _ => reply) sample_clock fault (fun _ => "{'error': 'unauthorized'}").

Definition no_fault : db_op -> option string := fun _ => None.

Definition history_down : db_op -> option string :=
  fun op => match op with
            | ChatInsert => Some "localhost:27017: connection refused"
            | _ => None
            end.

Definition empty_world : World := mkWorld [] [] 0%N 0 [].

Definition hi : ChatMessage := mkChatMessage "hi".

Definition completion (answer : string) : Response :=
  mkResponse 200 "{...}"
    (inl (JObj [("choices", JArr [JObj [("message", JObj [("content", JStr answer)])]])])).

(** A reply with success status whose body is the JSON object without members. *)
Definition empty_object_reply : Response := mkResponse 200 "{}" (inl (JObj [])).

(** A gateway error page: non-success status, a body, and not JSON. *)
Definition bad_gateway : Response :=
  mkResponse 502 "<html><body>502 Bad Gateway</body></html>"
    (inr "Expecting value: line 1 column 1 (char 0)").

(* ===================================================================== *)
(** ** Vocabulary of the statements about the stores *)

(** A computation that leaves the resume collection alone. *)
Definition keeps_resume {A : Type} (m : M A) : Prop :=
  forall w, resume_collection (snd (m w)) = resume_collection w.

(** The world after a replacement that the store carried out. *)
Definition upserted (d : ResumeDocument) (w : World) : World :=
  match resume_collection w with
  | first :: rest =>
      mkWorld (mkStored (_id first) d :: rest) (chats_collection w) (next_id w)
              (clock_reads w) (outbound w)
  | [] =>
      mkWorld [mkStored (next_id w) d] (chats_collection w) (N.succ (next_id w))
              (clock_reads w) (outbound w)
  end.

(** [a] is at least as recent as [b]. *)
Definition newer_or_equal (a b : Stored ChatExchange) : Prop :=
  String.leb (timestamp (body b)) (timestamp (body a)) = true.

(** A world whose history holds two exchanges, the older one stored first. *)
Definition first_exchange : Stored ChatExchange :=
  mkStored 7%N (mkChatExchange "hi" (JStr "Hello") "2024-05-01T10:00:00").

Definition second_exchange : Stored ChatExchange :=
  mkStored 8%N (mkChatExchange "which skills?" (JStr "Python") "2024-05-01T10:00:05").

Definition talkative_world : World :=
  mkWorld [] [first_exchange; second_exchange] 9%N 2 [].

(* ===================================================================== *)
(** ** Vocabulary of the further properties *)

(** The world once the exchange has been stamped and appended. *)
Definition recorded (env : Env) (m : ChatMessage) (a : jvalue) (w : World) : World :=
  mkWorld (resume_collection w)
          (chats_collection w
           ++ [mkStored (next_id w)
                 (mkChatExchange (message m) a (utcnow env (clock_reads w)))])%list
          (N.succ (next_id w)) (S (clock_reads w)) (outbound w).

(** An exception a handler may let out: an HTTP error with status 500. *)
Definition server_error_500 (e : exn) : Prop := exists detail, e = HTTPException 500 detail.

(** What the caller sees of a result built after the upstream call: a
    failure that is not an HTTP error is wrapped by the outer handler. *)
Definition surfaced {A : Type} (r : result A) : result A :=
  match r with
  | Ok a => Ok a
  | Raise (HTTPException c d) => Raise (HTTPException c d)
  | Raise e => Raise (HTTPException 500 (str_exn e))
  end.

(** The ways through [chat], each with its result and final world. *)
Inductive chat_path (env : Env) (m : ChatMessage) (w : World)
  : result ChatResponse * World -> Prop :=
| path_unconfigured :
    (forall api_key, ~ configured env api_key) ->
    chat_path env m w (Raise ConfigurationError, w)
| path_resume_unreadable api_key failure :
    configured env api_key ->
    db_fault env ResumeFind = Some failure ->
    chat_path env m w (Raise (HTTPException 500 failure), w)
| path_transport api_key failure :
    configured env api_key ->
    db_fault env ResumeFind = None ->
    upstream env (request_in api_key m w) = inr failure ->
    chat_path env m w
      (Raise (HTTPException 500 failure), sent (request_in api_key m w) w)
| path_non_success api_key resp detail :
    configured env api_key ->
    replies env api_key m w resp ->
    status_code resp <> 200%Z ->
    chat_path env m w
      (Raise (HTTPException 500 detail), sent (request_in api_key m w) w)
| path_malformed api_key resp e :
    configured env api_key ->
    replies env api_key m w resp ->
    status_code resp = 200%Z ->
    completion_content resp = Raise e ->
    chat_path env m w
      (Raise (HTTPException 500 (str_exn e)), sent (request_in api_key m w) w)
| path_recorded api_key resp a :
    configured env api_key ->
    replies env api_key m w resp ->
    status_code resp = 200%Z ->
    completion_content resp = Ok a ->
    db_fault env ChatInsert = None ->
    chat_path env m w
      (surfaced (make_ChatResponse a (utcnow env (clock_reads w))),
       recorded env m a (sent (request_in api_key m w) w))
| path_unrecorded api_key resp a failure :
    configured env api_key ->
    replies env api_key m w resp ->
    status_code resp = 200%Z ->
    completion_content resp = Ok a ->
    db_fault env ChatInsert = Some failure ->
    chat_path env m w
      (surfaced (make_ChatResponse a (utcnow env (S (clock_reads w)))),
       tick (tick (sent (request_in api_key m w) w))).

(** What of a resume reaches the prompt: identifiers, institutions and
    technologies are left out, and an absent section is an empty one. *)
Definition visible_education (e : EducationEntry) : option string * option string :=
  (degree e, status e).

Definition visible_project (p : Project) : option string * option string :=
  (project_name p, description p).

Definition visible (r : ResumeDocument) :=
  (get_default (personal_info r) empty_personal,
   map visible_education (get_default (education r) []),
   get_default (skills r) [],
   map visible_project (get_default (projects r) []),
   get_default (about r) EmptyString).

(** The opening of the context for a candidate without a name. *)
Definition nameless_opening : string :=
  LF ++ "You are an AI assistant for the candidate's portfolio website. Answer questions about their background, skills, and experience professionally and concisely."
  ++ LF ++ LF ++ "Name: None" ++ LF.

(** A reply body that has the completion where [chat] looks for it. *)
Definition well_shaped (body : jvalue) (content : jvalue) : Prop :=
  exists members choice_members others message_members,
    body = JObj members
    /\ dict_lookup "choices" members = Some (JArr (JObj choice_members :: others))
    /\ dict_lookup "message" choice_members = Some (JObj message_members)
    /\ dict_lookup "content" message_members = Some content.

(* ===================================================================== *)
(** ** CORS origins (module level)

    [origins = [origin.strip() for origin in cors_origins_str.split(",")]] *)

(** [s.split(sep)] for a one-character separator. *)
Fixpoint split_char (sep : ascii) (s : string) : list string :=
  match s with
  | EmptyString => [EmptyString]
  | String c t =>
      if Ascii.eqb c sep
      then EmptyString :: split_char sep t
      else match split_char sep t with
           | h :: r => String c h :: r
           | [] => [String c EmptyString]
           end
  end.

Definition bytes (l : list nat) : string :=
  string_of_list_ascii (map ascii_of_nat l).

(** The characters [str.strip()] removes, as UTF-8: U+0009 to U+000D,
    U+001C to U+001F, U+0020, U+0085, U+00A0, U+1680, U+2000 to U+200A,
    U+2028, U+2029, U+202F, U+205F and U+3000. *)
Definition whitespace : list string :=
  map bytes
    [ [9]; [10]; [11]; [12]; [13]; [28]; [29]; [30]; [31]; [32];
      [194; 133]; [194; 160];
      [225; 154; 128];
      [226; 128; 128]; [226; 128; 129]; [226; 128; 130]; [226; 128; 131];
      [226; 128; 132]; [226; 128; 133]; [226; 128; 134]; [226; 128; 135];
      [226; 128; 136]; [226; 128; 137]; [226; 128; 138];
      [226; 128; 168]; [226; 128; 169]; [226; 128; 175];
      [226; 129; 159];
      [227; 128; 128] ].

(** [s] without the leading [p], when [s] starts with [p]. *)
Fixpoint strip_prefix (p s : string) : option string :=
  match p, s with
  | EmptyString, _ => Some s
  | String a p', String b s' => if Ascii.eqb a b then strip_prefix p' s' else None
  | String _ _, EmptyString => None
  end.

(** [s] without a leading member of [ps], when it starts with one. *)
Fixpoint first_match (ps : list string) (s : string) : option string :=
  match ps with
  | [] => None
  | p :: rest =>
      match strip_prefix p s with
      | Some t => Some t
      | None => first_match rest s
      end
  end.

(** Remove leading members of [ps] for as long as there is one. *)
Fixpoint lstrip_with (ps : list string) (fuel : nat) (s : string) : string :=
  match fuel with
  | O => s
  | S n =>
      match first_match ps s with
      | Some t => lstrip_with ps n t
      | None => s
      end
  end.

Fixpoint rev_string (s : string) : string :=
  match s with
  | EmptyString => EmptyString
  | String c t => rev_string t ++ String c EmptyString
  end.

Definition lstrip (s : string) : string :=
  lstrip_with whitespace (String.length s) s.

Definition rstrip (s : string) : string :=
  rev_string (lstrip_with (map rev_string whitespace) (String.length s) (rev_string s)).

(** [s.strip()] *)
Definition strip (s : string) : string := rstrip (lstrip s).

Definition default_cors_origins : string := "http://localhost:5173".

(** The allowed origins, from the value of [CORS_ORIGINS] (absent: the default). *)
Definition cors_origins (CORS_ORIGINS : option string) : list string :=
  map strip (split_char "," (get_default CORS_ORIGINS default_cors_origins)).

Definition starts_with_whitespace (s : string) : bool :=
  match first_match whitespace s with Some _ => true | None => false end.

Definition ends_with_whitespace (s : string) : bool :=
  match first_match (map rev_string whitespace) (rev_string s) with
  | Some _ => true
  | None => false
  end.

Fixpoint count_char (c : ascii) (s : string) : nat :=
  match s with
  | EmptyString => 0
  | String b t => (if Ascii.eqb b c then 1 else 0) + count_char c t
  end.

(* ********************************************************************* *)
(** * Properties *)

(* ===================================================================== *)
(** ** Facts about strings *)

Lemma append_assoc (a b c : string) : (a ++ b) ++ c = a ++ (b ++ c).
Proof. induction a as [|ch a IH]; simpl; [reflexivity | now rewrite IH]. Qed.

Lemma append_nil_r (a : string) : a ++ EmptyString = a.
Proof. induction a as [|ch a IH]; simpl; [reflexivity | now rewrite IH]. Qed.

Lemma length_append (a b : string) :
  String.length (a ++ b) = String.length a + String.length b.
Proof. induction a as [|ch a IH]; simpl; [reflexivity | now rewrite IH]. Qed.

Lemma drop_append (a b : string) : drop (String.length a) (a ++ b) = b.
Proof. induction a as [|ch a IH]; simpl; [now destruct b | exact IH]. Qed.

Lemma prefix_append (n b : string) : String.prefix n (n ++ b) = true.
Proof.
  induction n as [|ch n IH]; simpl.
  - now destruct b.
  - destruct (ascii_dec ch ch) as [_|ne]; [exact IH | now elim ne].
Qed.

Lemma occurs_at_middle (a n b : string) :
  occurs_at n (a ++ n ++ b) (String.length a) = true.
Proof.
  unfold occurs_at. rewrite drop_append, prefix_append, andb_true_r.
  apply Nat.leb_le. rewrite length_append. lia.
Qed.

Lemma occurs_at_occurrences (n : string) :
  forall (h : string) (i : nat), occurs_at n h i = true -> 1 <= occurrences n h.
Proof.
  unfold occurs_at. intros h i; revert h.
  induction i as [|i IH]; intros h H; apply andb_prop in H; destruct H as [Hle Hp].
  - simpl in Hp. destruct h; cbn [occurrences]; rewrite Hp; lia.
  - destruct h as [|ch h]; simpl in Hle; [discriminate|].
    simpl in Hp. specialize (IH h). rewrite Hle, Hp in IH.
    specialize (IH eq_refl). cbn [occurrences].
    destruct (String.prefix n (String ch h)); lia.
Qed.

(** An accumulating loop [for x in xs: context += f(x)] appends the pieces
    in order. *)
Lemma accumulate_concat {A : Type} (f : A -> string) (xs : list A) :
  forall context : string,
    fold_left (fun (context : string) x => context ++ f x) xs context
    = context ++ String.concat EmptyString (map f xs).
Proof.
  induction xs as [|x xs IH]; intros context; simpl.
  - now rewrite append_nil_r.
  - rewrite IH, append_assoc. f_equal.
    destruct (map f xs) eqn:E; simpl.
    + now rewrite append_nil_r.
    + reflexivity.
Qed.

Lemma fold_left_ext {A B : Type} (f g : A -> B -> A) (l : list B) :
  (forall a x, f a x = g a x) -> forall a, fold_left f l a = fold_left g l a.
Proof.
  intros E. induction l as [|x l IH]; intros a; simpl; [reflexivity|].
  now rewrite E, IH.
Qed.

Lemma bullets_cons (l : string) (rest : list string) :
  bullets (l :: rest) = bullet l ++ bullets rest.
Proof.
  unfold bullets. simpl. destruct (map bullet rest); simpl.
  - now rewrite append_nil_r.
  - reflexivity.
Qed.

Lemma length_bullet (l : string) : String.length (bullet l) = String.length l + 3.
Proof. unfold bullet. rewrite !length_append. simpl. lia. Qed.

(* ===================================================================== *)
(** ** Context Builder: loops against sections *)

Lemma get_resume_context_sections (doc : Stored ResumeDocument) :
  get_resume_context (Some doc) = rendered_sections (body doc).
Proof.
  unfold get_resume_context, rendered_sections.
  cbv zeta.
  rewrite (fold_left_ext _ (fun (context : string) edu => context ++ bullet (education_line edu)))
    by (intros a edu; unfold bullet, education_line; now rewrite !append_assoc).
  rewrite (accumulate_concat (fun edu => bullet (education_line edu))).
  rewrite (fold_left_ext _ (fun (context : string) entry => context ++ bullet (skill_line entry)))
    by (intros a [category skill_list]; unfold bullet, skill_line; simpl;
        now rewrite !append_assoc).
  rewrite (accumulate_concat (fun entry => bullet (skill_line entry))).
  rewrite (fold_left_ext _ (fun (context : string) proj => context ++ bullet (project_line proj)))
    by (intros a proj; unfold bullet, project_line; now rewrite !append_assoc).
  rewrite (accumulate_concat (fun proj => bullet (project_line proj))).
  unfold education_section, skills_section, projects_section, about_section,
    bullets, context_header, role_framing, personal_fields.
  rewrite !map_map, !append_assoc. reflexivity.
Qed.

(** C6.  With no resume document the Context Builder returns the fixed
    sentence (it is a total function, so it cannot fail); with a document
    it renders, in this order, the role framing with the candidate's name,
    the personal fields (location defaulting to "Not specified"), the
    Education, Skills, Projects and About sections with their line formats,
    and the closing instruction. *)
Theorem context_builder_fixed_order :
  get_resume_context None = "No resume data available." /\
  forall doc : Stored ResumeDocument,
    get_resume_context (Some doc) = rendered_sections (body doc).
Proof.
  split; [reflexivity | exact get_resume_context_sections].
Qed.

(* ===================================================================== *)
(** ** Names in the context *)

Section BulletOffsets.

(** Entries rendered as bullet lines that begin with the entry's name. *)
Variable entry : Type.
Variable entry_name : entry -> string.
Variable entry_rest : entry -> string.

Let entry_line (e : entry) : string := entry_name e ++ entry_rest e.

Lemma names_at_line_offsets (entries : list entry) :
  forall before after : string,
    Forall2
      (fun nm off =>
         occurs_at nm (before ++ bullets (map entry_line entries) ++ after) off = true)
      (map entry_name entries)
      (line_offsets (String.length before) (map entry_line entries)).
Proof.
  induction entries as [|e rest IH]; intros before after;
    cbn [map line_offsets]; [constructor|].
  rewrite bullets_cons. constructor.
  - replace (before ++ (bullet (entry_line e) ++ bullets (map entry_line rest)) ++ after)
      with ((before ++ "- ") ++ entry_name e
            ++ (entry_rest e ++ LF ++ bullets (map entry_line rest) ++ after))
      by (unfold bullet, entry_line; now rewrite !append_assoc).
    replace (String.length before + 2) with (String.length (before ++ "- "))
      by (rewrite length_append; reflexivity).
    apply occurs_at_middle.
  - rewrite <- length_append.
    replace (before ++ (bullet (entry_line e) ++ bullets (map entry_line rest)) ++ after)
      with ((before ++ bullet (entry_line e)) ++ bullets (map entry_line rest) ++ after)
      by (now rewrite !append_assoc).
    apply IH.
Qed.

End BulletOffsets.

Lemma line_offsets_bounds (lines : list string) :
  forall start : nat,
    Forall (fun off => start + 2 <= off /\ off < start + String.length (bullets lines))
           (line_offsets start lines).
Proof.
  induction lines as [|l rest IH]; intros start; cbn [line_offsets]; [constructor|].
  rewrite bullets_cons, length_append. pose proof (length_bullet l) as Hl.
  constructor; [lia|].
  eapply Forall_impl; [|apply IH]. simpl. intros off [H1 H2]. lia.
Qed.

Lemma line_offsets_sorted (lines : list string) :
  forall start : nat, StronglySorted lt (line_offsets start lines).
Proof.
  induction lines as [|l rest IH]; intros start; cbn [line_offsets]; constructor;
    [apply IH|].
  eapply Forall_impl; [|apply line_offsets_bounds].
  simpl. intros off [H _]. pose proof (length_bullet l). lia.
Qed.

Lemma StronglySorted_app (l1 l2 : list nat) :
  StronglySorted lt l1 -> StronglySorted lt l2 ->
  (forall x y, In x l1 -> In y l2 -> x < y) ->
  StronglySorted lt (l1 ++ l2).
Proof.
  induction l1 as [|a l1 IH]; intros S1 S2 H; simpl; [exact S2|].
  inversion S1; subst. constructor.
  - apply IH; auto. intros x y Hx Hy. apply H; [now right | exact Hy].
  - apply Forall_app. split; [assumption|].
    apply Forall_forall. intros y Hy. apply H; [now left | exact Hy].
Qed.

Lemma rendered_sections_split (r : ResumeDocument) :
  rendered_sections r
  = before_skills r
    ++ bullets (map skill_line (get_default (skills r) []))
    ++ between_skills_and_projects
    ++ bullets (map project_line (get_default (projects r) []))
    ++ after_projects r.
Proof.
  unfold rendered_sections, before_skills, after_projects, between_skills_and_projects,
    skills_section, projects_section.
  cbv zeta. now rewrite !append_assoc.
Qed.

Lemma names_at_name_offsets (doc : Stored ResumeDocument) :
  Forall2 (fun nm off => occurs_at nm (get_resume_context (Some doc)) off = true)
          (names_in_order (body doc)) (name_offsets (body doc)).
Proof.
  rewrite get_resume_context_sections, rendered_sections_split.
  set (r := body doc). unfold names_in_order, name_offsets. cbv zeta.
  apply Forall2_app.
  - apply (names_at_line_offsets _ fst (fun e => ": " ++ join ", " (snd e))).
  - set (B := before_skills r).
    set (S := bullets (map skill_line (get_default (skills r) []))).
    set (M := between_skills_and_projects).
    replace (String.length B + String.length S + String.length M)
      with (String.length (B ++ S ++ M)) by (rewrite !length_append; lia).
    rewrite <- (append_assoc S), <- (append_assoc B).
    apply (names_at_line_offsets _ (fun p => fmt (project_name p))
                                 (fun p => ": " ++ fmt (description p))).
Qed.

Lemma name_offsets_sorted (r : ResumeDocument) : StronglySorted lt (name_offsets r).
Proof.
  unfold name_offsets. cbv zeta.
  apply StronglySorted_app; try apply line_offsets_sorted.
  intros x y Hx Hy.
  pose proof (line_offsets_bounds (map skill_line (get_default (skills r) []))
                (String.length (before_skills r))) as B1.
  rewrite Forall_forall in B1. apply B1 in Hx.
  match type of Hy with In _ (line_offsets ?s ?l) =>
    pose proof (line_offsets_bounds l s) as B2 end.
  rewrite Forall_forall in B2. apply B2 in Hy. lia.
Qed.

(** C1, as stated, fails: the category [Python] of [python_resume] stands
    in the context twice, once in its own Skills line and once inside the
    project name [Python CLI]. *)
Lemma names_exactly_once_counterexample :
  well_formed python_resume /\
  In "Python" (names_in_order python_resume) /\
  occurrences "Python" (get_resume_context (Some (mkStored 1%N python_resume))) = 2 /\
  occurrences "Python" (get_resume_context (Some (mkStored 1%N python_resume))) <> 1.
Proof.
  assert (E : occurrences "Python" (get_resume_context (Some (mkStored 1%N python_resume))) = 2)
    by (vm_compute; reflexivity).
  split; [|split; [|split]].
  - unfold well_formed. simpl. constructor; [intros [] | constructor].
  - simpl. now left.
  - exact E.
  - rewrite E. discriminate.
Qed.

(** C1, amended.  Every skill category and every project name stands
    verbatim in the context at least once: there is one offset per name,
    the name occurs at its offset, and the offsets increase strictly in
    input order (categories first, then projects). *)
Theorem names_occur_in_input_order (doc : Stored ResumeDocument) :
  exists offsets : list nat,
    Forall2 (fun nm off => occurs_at nm (get_resume_context (Some doc)) off = true)
            (names_in_order (body doc)) offsets
    /\ StronglySorted lt offsets
    /\ Forall (fun nm => 1 <= occurrences nm (get_resume_context (Some doc)))
              (names_in_order (body doc)).
Proof.
  exists (name_offsets (body doc)).
  pose proof (names_at_name_offsets doc) as H.
  split; [exact H | split; [apply name_offsets_sorted|]].
  induction H as [|nm off names offs Hocc _ IH]; constructor; [|exact IH].
  eapply occurs_at_occurrences; exact Hocc.
Qed.

(* ===================================================================== *)
(** ** Chat Proxy *)

Lemma bind_ok {A B : Type} (m : M A) (f : A -> M B) (w w' : World) (a : A) :
  m w = (Ok a, w') -> bind m f w = f a w'.
Proof. intros H. unfold bind. now rewrite H. Qed.

Lemma bind_raise {A B : Type} (m : M A) (f : A -> M B) (w w' : World) (e : exn) :
  m w = (Raise e, w') -> bind m f w = (Raise e, w').
Proof. intros H. unfold bind. now rewrite H. Qed.

Lemma db_ok (env : Env) (op : db_op) (w : World) :
  db_fault env op = None -> db env op w = (Ok tt, w).
Proof. intros H. unfold db. now rewrite H. Qed.

Lemma db_fails (env : Env) (op : db_op) (w : World) (failure : string) :
  db_fault env op = Some failure -> db env op w = (Raise (External failure), w).
Proof. intros H. unfold db. now rewrite H. Qed.

Lemma resume_find_one_ok (env : Env) (w : World) :
  db_fault env ResumeFind = None ->
  resume_find_one env w = (Ok (hd_error (resume_collection w)), w).
Proof.
  intros H. unfold resume_find_one. now rewrite (bind_ok _ _ _ _ _ (db_ok _ _ _ H)).
Qed.

(** A failed insertion leaves the history as it was; the stamp returned is
    the second clock reading. *)
Lemma record_exchange_fails (env : Env) (m : ChatMessage) (a : jvalue) (w : World)
      (failure : string) :
  db_fault env ChatInsert = Some failure ->
  record_exchange env m a w = (Ok (utcnow env (S (clock_reads w))), tick (tick w)).
Proof.
  intros H. unfold record_exchange, try_except.
  rewrite (bind_ok _ _ w (tick w) (utcnow env (clock_reads w))) by reflexivity.
  unfold chats_insert_one.
  rewrite (bind_raise _ _ (tick w) (tick w) (External failure)).
  - reflexivity.
  - apply bind_raise. now apply db_fails.
Qed.

Lemma record_exchange_ok (env : Env) (m : ChatMessage) (a : jvalue) (w : World) :
  db_fault env ChatInsert = None ->
  record_exchange env m a w
  = (Ok (utcnow env (clock_reads w)),
     mkWorld (resume_collection w)
             (chats_collection w
              ++ [mkStored (next_id w)
                    (mkChatExchange (message m) a (utcnow env (clock_reads w)))])%list
             (N.succ (next_id w)) (S (clock_reads w)) (outbound w)).
Proof.
  intros H. unfold record_exchange, try_except.
  rewrite (bind_ok _ _ w (tick w) (utcnow env (clock_reads w))) by reflexivity.
  unfold chats_insert_one.
  rewrite (bind_ok _ _ (tick w) _ tt
             (bind_ok _ _ (tick w) (tick w) tt (db_ok _ _ _ H))).
  reflexivity.
Qed.

(** Up to the reply: with a usable credential and a readable resume store,
    one request is sent and the reply is handled. *)
Lemma chat_try_reply (env : Env) (m : ChatMessage) (w : World) (api_key : string)
      (resp : Response) :
  configured env api_key ->
  replies env api_key m w resp ->
  chat_try env m w = handle_response env m resp (sent (request_in api_key m w) w).
Proof.
  intros (Hkey & Hne & Hnp) (Hfind & Hup).
  apply String.eqb_neq in Hne. apply String.eqb_neq in Hnp.
  unfold chat_try. rewrite Hkey, Hne, Hnp. cbn [orb].
  rewrite (bind_ok _ _ _ _ _ (resume_find_one_ok _ _ Hfind)).
  apply bind_ok. unfold post. fold (request_in api_key m w). now rewrite Hup.
Qed.

Lemma external_not_http {A : Type} (r : A + string) (e : exn) :
  external r = Raise e -> ~ is_http e.
Proof. destruct r; simpl; intros H (c & d & ->); discriminate. Qed.

Lemma getitem_str_not_http (v : jvalue) (key : string) (e : exn) :
  getitem_str v key = Raise e -> ~ is_http e.
Proof.
  unfold getitem_str, not_subscriptable. intros H (c & d & ->).
  destruct v; try discriminate. destruct (dict_lookup key members); discriminate.
Qed.

Lemma getitem_0_not_http (v : jvalue) (e : exn) :
  getitem_0 v = Raise e -> ~ is_http e.
Proof.
  unfold getitem_0, not_subscriptable. intros H (c & d & ->).
  destruct v as [| | | |s|items|]; try discriminate.
  - destruct s; discriminate.
  - destruct items; discriminate.
Qed.

Lemma bind_result_raise {A B : Type} (r : result A) (f : A -> result B) (e : exn) :
  bind_result r f = Raise e -> r = Raise e \/ exists a, r = Ok a /\ f a = Raise e.
Proof. destruct r; simpl; intros H; [right; eauto | left; congruence]. Qed.

(** Reading the completion out of the reply never raises an
    [HTTPException]: only lookup failures and the decoder's own error. *)
Lemma completion_content_not_http (resp : Response) (e : exn) :
  completion_content resp = Raise e -> ~ is_http e.
Proof.
  unfold completion_content. intros H.
  apply bind_result_raise in H as [H | (body & _ & H)];
    [now apply external_not_http in H|].
  apply bind_result_raise in H as [H | (choices & _ & H)];
    [now apply getitem_str_not_http in H|].
  apply bind_result_raise in H as [H | (choice & _ & H)];
    [now apply getitem_0_not_http in H|].
  apply bind_result_raise in H as [H | (msg & _ & H)];
    now apply getitem_str_not_http in H.
Qed.

Lemma chat_of_try (env : Env) (m : ChatMessage) (w w' : World) (r : result ChatResponse) :
  chat_try env m w = (r, w') ->
  chat env m w
  = (match r with
     | Ok a => Ok a
     | Raise (HTTPException c d) => Raise (HTTPException c d)
     | Raise e => Raise (HTTPException 500 (str_exn e))
     end, w').
Proof.
  intros H. unfold chat, try_except. rewrite H.
  destruct r as [a|[]]; reflexivity.
Qed.

(** C3.  With the credential absent, or equal to the placeholder, [chat]
    raises the configuration error, an HTTP 500, and the world is left as it
    was: in particular no request has been sent upstream. *)
Theorem chat_without_credential (env : Env) (m : ChatMessage) (w : World) :
  OPENROUTER_API_KEY env = None \/ OPENROUTER_API_KEY env = Some placeholder_key ->
  chat env m w = (Raise ConfigurationError, w)
  /\ ConfigurationError = HTTPException 500 configuration_detail
  /\ outbound (snd (chat env m w)) = outbound w.
Proof.
  intros H.
  assert (E : chat env m w = (Raise ConfigurationError, w)).
  { unfold chat, try_except, chat_try. destruct H as [-> | ->]; reflexivity. }
  rewrite E. repeat split.
Qed.

Lemma chat_without_credential_witness :
  chat (sample_env None (inl (completion "Hello")) no_fault) hi empty_world
  = (Raise ConfigurationError, empty_world).
Proof.
  apply (chat_without_credential (sample_env None (inl (completion "Hello")) no_fault)
                                 hi empty_world).
  left. reflexivity.
Defined.

(** C4.  When the upstream call succeeds and appending the exchange to the
    history fails, [chat] still returns the answer, stamped with a clock
    reading taken after the failure; the history is unchanged and the error
    is not surfaced. *)
Theorem chat_survives_storage_failure
        (env : Env) (m : ChatMessage) (w : World)
        (api_key : string) (resp : Response) (answer failure : string) :
  configured env api_key ->
  replies env api_key m w resp ->
  status_code resp = 200%Z ->
  completion_content resp = Ok (JStr answer) ->
  db_fault env ChatInsert = Some failure ->
  chat env m w
  = (Ok (mkChatResponse answer (utcnow env (S (clock_reads w)))),
     tick (tick (sent (request_in api_key m w) w)))
  /\ chats_collection (snd (chat env m w)) = chats_collection w.
Proof.
  intros Hcfg Hrep Hst Hcontent Hfault.
  assert (E : chat_try env m w
              = (Ok (mkChatResponse answer (utcnow env (S (clock_reads w)))),
                 tick (tick (sent (request_in api_key m w) w)))).
  { rewrite (chat_try_reply _ _ _ _ _ Hcfg Hrep).
    unfold handle_response. rewrite Hst. cbn [Z.eqb Pos.eqb negb].
    rewrite (bind_ok _ _ _ _ (JStr answer))
      by (unfold lift; rewrite Hcontent; reflexivity).
    rewrite (bind_ok _ _ _ _ _ (record_exchange_fails _ _ _ _ _ Hfault)).
    reflexivity. }
  rewrite (chat_of_try _ _ _ _ _ E). split; reflexivity.
Qed.

Lemma chat_survives_storage_failure_witness :
  chat (sample_env (Some sample_key) (inl (completion "Hello")) history_down) hi empty_world
  = (Ok (mkChatResponse "Hello" "2024-05-01T10:00:01"),
     tick (tick (sent (request_in sample_key hi empty_world) empty_world)))
  /\ chats_collection
       (snd (chat (sample_env (Some sample_key) (inl (completion "Hello")) history_down)
                  hi empty_world)) = [].
Proof.
  apply (chat_survives_storage_failure
           (sample_env (Some sample_key) (inl (completion "Hello")) history_down)
           hi empty_world sample_key (completion "Hello") "Hello"
           "localhost:27017: connection refused").
  - repeat split; discriminate.
  - split; reflexivity.
  - reflexivity.
  - reflexivity.
  - reflexivity.
Defined.

Lemma not_upstream_error (detail : string) :
  String.prefix "AI service error: " detail = false ->
  forall d, HTTPException 500 detail <> UpstreamError d.
Proof.
  intros H d E. unfold UpstreamError in E.
  assert (D : detail = "AI service error: " ++ d) by congruence.
  rewrite D, prefix_append in H. discriminate.
Qed.

(** C5, as stated, fails: a reply with success status and body [{}] makes
    [chat] raise the generic server error whose detail is the text of the
    [KeyError], not an upstream error. *)
Lemma malformed_reply_counterexample :
  status_code empty_object_reply = 200%Z
  /\ completion_content empty_object_reply = Raise (KeyError (KStr "choices"))
  /\ fst (chat (sample_env (Some sample_key) (inl empty_object_reply) no_fault)
               hi empty_world)
     = Raise (HTTPException 500 "'choices'")
  /\ forall d,
       fst (chat (sample_env (Some sample_key) (inl empty_object_reply) no_fault)
                 hi empty_world)
       <> Raise (UpstreamError d).
Proof.
  repeat split.
  intros d E. cbn in E.
  assert (E' : HTTPException 500 "'choices'" = UpstreamError d) by congruence.
  revert E'. now apply not_upstream_error.
Qed.

(** C5, amended.  When the reply has success status and the completion
    text cannot be read out of it, [chat] raises an HTTP 500 whose detail is
    the text of the lookup failure itself; one request has been sent and
    nothing is appended to the history. *)
Theorem chat_malformed_reply
        (env : Env) (m : ChatMessage) (w : World)
        (api_key : string) (resp : Response) (e : exn) :
  configured env api_key ->
  replies env api_key m w resp ->
  status_code resp = 200%Z ->
  completion_content resp = Raise e ->
  chat env m w
  = (Raise (HTTPException 500 (str_exn e)), sent (request_in api_key m w) w)
  /\ chats_collection (snd (chat env m w)) = chats_collection w.
Proof.
  intros Hcfg Hrep Hst Hcontent.
  assert (E : chat_try env m w = (Raise e, sent (request_in api_key m w) w)).
  { rewrite (chat_try_reply _ _ _ _ _ Hcfg Hrep).
    unfold handle_response. rewrite Hst. cbn [Z.eqb Pos.eqb negb].
    apply bind_raise. unfold lift. now rewrite Hcontent. }
  rewrite (chat_of_try _ _ _ _ _ E).
  pose proof (completion_content_not_http _ _ Hcontent) as Hn.
  destruct e; try (split; reflexivity).
  exfalso. apply Hn. red. eauto.
Qed.

Lemma chat_malformed_reply_witness :
  chat (sample_env (Some sample_key) (inl empty_object_reply) no_fault) hi empty_world
  = (Raise (HTTPException 500 "'choices'"),
     sent (request_in sample_key hi empty_world) empty_world)
  /\ chats_collection
       (snd (chat (sample_env (Some sample_key) (inl empty_object_reply) no_fault)
                  hi empty_world)) = [].
Proof.
  apply (chat_malformed_reply
           (sample_env (Some sample_key) (inl empty_object_reply) no_fault)
           hi empty_world sample_key empty_object_reply (KeyError (KStr "choices"))).
  - repeat split; discriminate.
  - split; reflexivity.
  - reflexivity.
  - reflexivity.
Defined.

(** Non-success replies.  Whatever the body, the caller gets an HTTP 500
    and nothing is appended to the history. *)
Lemma chat_non_success_never_records
      (env : Env) (m : ChatMessage) (w : World) (api_key : string) (resp : Response) :
  configured env api_key ->
  replies env api_key m w resp ->
  status_code resp <> 200%Z ->
  (exists detail, fst (chat env m w) = Raise (HTTPException 500 detail))
  /\ snd (chat env m w) = sent (request_in api_key m w) w.
Proof.
  intros Hcfg Hrep Hst. apply Z.eqb_neq in Hst.
  assert (E : exists e, chat_try env m w = (Raise e, sent (request_in api_key m w) w)
                        /\ (is_http e -> exists d, e = HTTPException 500 d)).
  { rewrite (chat_try_reply _ _ _ _ _ Hcfg Hrep).
    unfold handle_response. rewrite Hst. cbn [negb].
    destruct (negb (text resp =? EmptyString)).
    - destruct (json resp) as [v|msg] eqn:J; unfold bind, lift, raise; rewrite ?J; cbn.
      + eexists; split; [reflexivity | eauto].
      + eexists; split; [reflexivity|]. intros (c & d & H). discriminate.
    - cbn. eexists; split; [reflexivity | eauto]. }
  destruct E as (e & E & Hhttp). rewrite (chat_of_try _ _ _ _ _ E).
  split; [|reflexivity]. cbn [fst].
  destruct e; eauto.
  destruct Hhttp as (d & Hd); [red; eauto|]. injection Hd as -> ->. eauto.
Qed.

(** A non-success reply with an empty body, or with a body that decodes,
    is reported as an upstream error carrying the generic text or the
    payload. *)
Lemma chat_non_success_reported
      (env : Env) (m : ChatMessage) (w : World) (api_key : string) (resp : Response) :
  configured env api_key ->
  replies env api_key m w resp ->
  status_code resp <> 200%Z ->
  (text resp = EmptyString ->
   fst (chat env m w) = Raise (UpstreamError "AI service error"))
  /\ (forall payload, text resp <> EmptyString -> json resp = inl payload ->
      fst (chat env m w) = Raise (UpstreamError (py_str env payload))).
Proof.
  intros Hcfg Hrep Hst. apply Z.eqb_neq in Hst.
  pose proof (chat_try_reply _ _ _ _ _ Hcfg Hrep) as T.
  unfold handle_response in T. rewrite Hst in T. cbn [negb] in T.
  split.
  - intros Hempty. rewrite Hempty in T. cbn in T.
    now rewrite (chat_of_try _ _ _ _ _ T).
  - intros payload Hbody J. apply String.eqb_neq in Hbody.
    rewrite Hbody, J in T. cbn in T.
    now rewrite (chat_of_try _ _ _ _ _ T).
Qed.

(** C2 at the gateway page: status 502, a body, not JSON.  Decoding the
    body raises inside the error branch, and the caller receives the
    decoder's message instead of an upstream error; nothing is recorded. *)
Theorem chat_undecodable_error_body :
  status_code bad_gateway <> 200%Z
  /\ chat (sample_env (Some sample_key) (inl bad_gateway) no_fault) hi empty_world
     = (Raise (HTTPException 500 "Expecting value: line 1 column 1 (char 0)"),
        sent (request_in sample_key hi empty_world) empty_world)
  /\ (forall d,
        fst (chat (sample_env (Some sample_key) (inl bad_gateway) no_fault) hi empty_world)
        <> Raise (UpstreamError d))
  /\ chats_collection
       (snd (chat (sample_env (Some sample_key) (inl bad_gateway) no_fault) hi empty_world))
     = [].
Proof.
  split; [discriminate|]. split; [reflexivity|]. split; [|reflexivity].
  intros d E. cbn in E.
  assert (E' : HTTPException 500 "Expecting value: line 1 column 1 (char 0)"
               = UpstreamError d) by congruence.
  revert E'. now apply not_upstream_error.
Qed.

(* ===================================================================== *)
(** ** The resume store holds at most one document *)

Create HintDb frame.

Lemma keeps_ret {A : Type} (a : A) : keeps_resume (ret a).
Proof. intros w; reflexivity. Qed.

Lemma keeps_raise {A : Type} (e : exn) : keeps_resume (@raise A e).
Proof. intros w; reflexivity. Qed.

Lemma keeps_lift {A : Type} (r : result A) : keeps_resume (lift r).
Proof. intros w; reflexivity. Qed.

Lemma keeps_bind {A B : Type} (m : M A) (f : A -> M B) :
  keeps_resume m -> (forall a, keeps_resume (f a)) -> keeps_resume (bind m f).
Proof.
  intros Hm Hf w. unfold bind. specialize (Hm w).
  destruct (m w) as [[a|e] w']; simpl in *; [|exact Hm].
  now rewrite Hf.
Qed.

Lemma keeps_try_except {A : Type} (m : M A) (h : exn -> M A) :
  keeps_resume m -> (forall e, keeps_resume (h e)) -> keeps_resume (try_except m h).
Proof.
  intros Hm Hh w. unfold try_except. specialize (Hm w).
  destruct (m w) as [[a|e] w']; simpl in *; [exact Hm|].
  now rewrite Hh.
Qed.

Lemma keeps_db (env : Env) (op : db_op) : keeps_resume (db env op).
Proof. intros w. unfold db. now destruct (db_fault env op). Qed.

Lemma keeps_now (env : Env) : keeps_resume (now_isoformat env).
Proof. intros w; reflexivity. Qed.

Lemma keeps_post (env : Env) (req : Request) : keeps_resume (post env req).
Proof. intros w; reflexivity. Qed.

#[local] Hint Resolve keeps_ret keeps_raise keeps_lift keeps_db keeps_now keeps_post : frame.
#[local] Hint Extern 2 (keeps_resume (bind _ _)) => apply keeps_bind; [|intros ?] : frame.
#[local] Hint Extern 2 (keeps_resume (try_except _ _)) =>
  apply keeps_try_except; [|intros ?] : frame.
#[local] Hint Extern 3 (keeps_resume (if ?b then _ else _)) => destruct b : frame.
#[local] Hint Extern 3 (keeps_resume (match ?x with _ => _ end)) => destruct x : frame.

Lemma keeps_chats_insert_one (env : Env) (doc : ChatExchange) :
  keeps_resume (chats_insert_one env doc).
Proof. unfold chats_insert_one. apply keeps_bind; [auto with frame|]. intros _ w. reflexivity. Qed.

Lemma keeps_resume_find_one (env : Env) : keeps_resume (resume_find_one env).
Proof. unfold resume_find_one. apply keeps_bind; [auto with frame|]. intros _ w. reflexivity. Qed.

Lemma keeps_chats_find_sorted (env : Env) (limit : Z) :
  keeps_resume (chats_find_sorted env limit).
Proof. unfold chats_find_sorted. apply keeps_bind; [auto with frame|]. intros _ w. reflexivity. Qed.

#[local] Hint Resolve keeps_chats_insert_one keeps_resume_find_one keeps_chats_find_sorted : frame.

Lemma keeps_chat (env : Env) (m : ChatMessage) : keeps_resume (chat env m).
Proof.
  unfold chat, chat_try, handle_response, record_exchange.
  auto 12 with frame.
Qed.

Lemma keeps_get_chat_history (env : Env) (limit : Z) :
  keeps_resume (get_chat_history env limit).
Proof. unfold get_chat_history, server_error. auto 8 with frame. Qed.

Lemma keeps_get_resume (env : Env) : keeps_resume (get_resume env).
Proof. unfold get_resume, server_error. auto 8 with frame. Qed.

(** Startup adds the seed to an empty collection and otherwise changes nothing. *)
Lemma initialize_resume_collection (env : Env) (w : World) :
  resume_collection (snd (initialize_resume env w)) = resume_collection w
  \/ (resume_collection w = []
      /\ resume_collection (snd (initialize_resume env w)) = [mkStored (next_id w) seed_resume]).
Proof.
  unfold initialize_resume, resume_count_documents, resume_insert_one, bind, db.
  destruct (db_fault env ResumeCount); [now left|]. cbn.
  destruct (resume_collection w) eqn:E; cbn; [|now left].
  destruct (db_fault env ResumeInsert); cbn; [now left|].
  right. rewrite E. now split.
Qed.

(** The replacement either fails and changes nothing, or swaps the body of
    the first document, or inserts into an empty collection. *)
Lemma update_resume_collection (env : Env) (d : ResumeDocument) (w : World) :
  resume_collection (snd (update_resume env d w))
  = match db_fault env ResumeReplace with
    | Some _ => resume_collection w
    | None =>
        match resume_collection w with
        | first :: rest => mkStored (_id first) d :: rest
        | [] => [mkStored (next_id w) d]
        end
    end.
Proof.
  unfold update_resume, server_error, try_except, resume_replace_one_upsert, bind, db.
  destruct (db_fault env ResumeReplace); cbn; [reflexivity|].
  destruct (resume_collection w); reflexivity.
Qed.

Lemma run_resume_collection (env : Env) (op : operation) (w : World) :
  length (resume_collection w) <= 1 ->
  length (resume_collection (run env op w)) <= 1
  /\ length (resume_collection w) <= length (resume_collection (run env op w)).
Proof.
  intros H. destruct op; cbn [run].
  - destruct (initialize_resume_collection env w) as [-> | [E ->]];
      [lia | rewrite E; simpl; lia].
  - lia.
  - rewrite keeps_chat. lia.
  - rewrite keeps_get_chat_history. lia.
  - rewrite keeps_get_resume. lia.
  - rewrite update_resume_collection.
    destruct (db_fault env ResumeReplace); [lia|].
    destruct (resume_collection w); simpl in *; lia.
Qed.

(** C7.  Starting with at most one resume document, any history of
    operations (startup, liveness, chat, history, resume read, resume
    replacement), each under any surroundings, ends with at most one, and
    never with fewer than it started with. *)
Theorem at_most_one_resume (ops : list (Env * operation)) (w : World) :
  length (resume_collection w) <= 1 ->
  length (resume_collection (run_all ops w)) <= 1
  /\ length (resume_collection w) <= length (resume_collection (run_all ops w)).
Proof.
  revert w. induction ops as [|[env op] ops IH]; intros w H.
  - cbn. lia.
  - change (run_all ((env, op) :: ops) w) with (run_all ops (run env op w)).
    destruct (run_resume_collection env op w H) as [H1 H2].
    destruct (IH _ H1) as [H3 H4]. split; lia.
Qed.

Lemma at_most_one_resume_witness :
  length (resume_collection empty_world) <= 1
  /\ length (resume_collection
       (run_all [(sample_env (Some sample_key) (inl (completion "Hello")) no_fault, Startup);
                 (sample_env None (inl bad_gateway) no_fault, PutResume python_resume);
                 (sample_env (Some sample_key) (inl (completion "Hello")) no_fault, PostChat hi);
                 (sample_env None (inl bad_gateway) history_down, Startup)]
                empty_world)) <= 1.
Proof.
  split; [simpl; lia|].
  apply (at_most_one_resume
           [(sample_env (Some sample_key) (inl (completion "Hello")) no_fault, Startup);
            (sample_env None (inl bad_gateway) no_fault, PutResume python_resume);
            (sample_env (Some sample_key) (inl (completion "Hello")) no_fault, PostChat hi);
            (sample_env None (inl bad_gateway) history_down, Startup)]
           empty_world).
  simpl; lia.
Defined.

(* ===================================================================== *)
(** ** Resume endpoints: write, then read *)

Lemma update_resume_ok (env : Env) (d : ResumeDocument) (w : World) :
  db_fault env ResumeReplace = None ->
  snd (update_resume env d w) = upserted d w
  /\ exists n, fst (update_resume env d w) = Ok (mkUpdateReply "Resume updated successfully" n).
Proof.
  intros H.
  unfold update_resume, server_error, try_except, resume_replace_one_upsert, upserted,
    bind, db.
  rewrite H. cbn.
  destruct (resume_collection w); cbn; eauto.
Qed.

Lemma upserted_twice (d : ResumeDocument) (w : World) :
  upserted d (upserted d w) = upserted d w.
Proof. unfold upserted. destruct (resume_collection w); reflexivity. Qed.

Lemma get_resume_ok (env : Env) (w : World) :
  db_fault env ResumeFind = None ->
  get_resume env w
  = (Ok (match hd_error (resume_collection w) with
         | Some doc => ResumeFound (stringify_id doc)
         | None => ResumeMissing "No resume data found"
         end), w).
Proof.
  intros H. unfold get_resume, server_error, try_except.
  now rewrite (bind_ok _ _ _ _ _ (resume_find_one_ok _ _ H)).
Qed.

(** C8.  When the store answers, [PUT /api/resume] followed by
    [GET /api/resume] returns the document just written: the PUT swaps the
    body of the stored document (keeping its identifier) or inserts into an
    empty collection, and a second identical PUT changes nothing. *)
Theorem put_then_get_resume (env : Env) (resume_data : ResumeDocument) (w : World) :
  db_fault env ResumeReplace = None ->
  db_fault env ResumeFind = None ->
  let w1 := snd (update_resume env resume_data w) in
  (exists id, fst (get_resume env w1) = Ok (ResumeFound (mkReturned id resume_data)))
  /\ resume_collection w1
     = match resume_collection w with
       | first :: rest => mkStored (_id first) resume_data :: rest
       | [] => [mkStored (next_id w) resume_data]
       end
  /\ snd (update_resume env resume_data w1) = w1.
Proof.
  intros Hrep Hfind w1.
  destruct (update_resume_ok env resume_data w Hrep) as [E _].
  unfold w1. rewrite E.
  destruct (update_resume_ok env resume_data (upserted resume_data w) Hrep) as [E2 _].
  rewrite E2, upserted_twice, (get_resume_ok _ _ Hfind).
  unfold upserted.
  destruct (resume_collection w); cbn;
    (split; [eexists; reflexivity | split; reflexivity]).
Qed.

Lemma put_then_get_resume_witness :
  exists id,
    fst (get_resume (sample_env None (inl bad_gateway) no_fault)
           (snd (update_resume (sample_env None (inl bad_gateway) no_fault)
                               python_resume empty_world)))
    = Ok (ResumeFound (mkReturned id python_resume)).
Proof.
  apply (put_then_get_resume (sample_env None (inl bad_gateway) no_fault)
                             python_resume empty_world); reflexivity.
Defined.

(* ===================================================================== *)
(** ** Chat history *)

Lemma ascii_compare_refl (c : ascii) : Ascii.compare c c = Eq.
Proof. unfold Ascii.compare. apply N.compare_refl. Qed.

Lemma string_compare_le_trans :
  forall a b c : string,
    String.compare a b <> Gt -> String.compare b c <> Gt -> String.compare a c <> Gt.
Proof.
  induction a as [|x a IH]; intros [|y b] [|z c]; simpl; try congruence.
  destruct (Ascii.compare x y) eqn:Exy; try congruence;
    destruct (Ascii.compare y z) eqn:Eyz; try congruence.
  - apply Ascii.compare_eq_iff in Exy, Eyz. subst.
    rewrite ascii_compare_refl. apply IH.
  - apply Ascii.compare_eq_iff in Exy. subst. now rewrite Eyz.
  - apply Ascii.compare_eq_iff in Eyz. subst. now rewrite Exy.
  - unfold Ascii.compare in *. rewrite N.compare_lt_iff in Exy, Eyz.
    assert (L : (N_of_ascii x < N_of_ascii z)%N) by lia.
    apply N.compare_lt_iff in L. rewrite L. congruence.
Qed.

Lemma string_leb_trans (a b c : string) :
  String.leb a b = true -> String.leb b c = true -> String.leb a c = true.
Proof.
  unfold String.leb. intros H1 H2.
  pose proof (string_compare_le_trans a b c) as T.
  destruct (String.compare a b), (String.compare b c), (String.compare a c);
    try reflexivity; try discriminate; exfalso; apply T; congruence.
Qed.

Lemma insert_desc_perm (d : Stored ChatExchange) (l : list (Stored ChatExchange)) :
  Permutation (insert_desc d l) (d :: l).
Proof.
  induction l as [|x l IH]; simpl; [reflexivity|].
  destruct (String.leb (timestamp (body x)) (timestamp (body d))); [reflexivity|].
  rewrite IH. apply perm_swap.
Qed.

Lemma sort_timestamp_desc_perm (l : list (Stored ChatExchange)) :
  Permutation (sort_timestamp_desc l) l.
Proof.
  induction l as [|d l IH]; simpl; [reflexivity|].
  rewrite insert_desc_perm. now constructor.
Qed.

Lemma insert_desc_sorted (d : Stored ChatExchange) (l : list (Stored ChatExchange)) :
  StronglySorted newer_or_equal l -> StronglySorted newer_or_equal (insert_desc d l).
Proof.
  induction l as [|x l IH]; intros S; simpl.
  - repeat constructor.
  - inversion S as [|? ? Sl Fx]; subst.
    destruct (String.leb (timestamp (body x)) (timestamp (body d))) eqn:E.
    + constructor; [exact S|]. constructor; [exact E|].
      eapply Forall_impl; [|exact Fx]. intros y Hy. unfold newer_or_equal in *.
      eapply string_leb_trans; eassumption.
    + constructor; [now apply IH|].
      apply (Permutation_Forall (Permutation_sym (insert_desc_perm d l))).
      constructor; [|exact Fx]. unfold newer_or_equal.
      destruct (String.leb_total (timestamp (body x)) (timestamp (body d))) as [T|T];
        [congruence | exact T].
Qed.

Lemma sort_timestamp_desc_sorted (l : list (Stored ChatExchange)) :
  StronglySorted newer_or_equal (sort_timestamp_desc l).
Proof.
  induction l as [|d l IH]; simpl; [constructor | now apply insert_desc_sorted].
Qed.

Lemma In_firstn {A : Type} (n : nat) (l : list A) (y : A) :
  In y (firstn n l) -> In y l.
Proof.
  intros H. rewrite <- (firstn_skipn n l). apply in_or_app. now left.
Qed.

Lemma firstn_sorted {A : Type} (R : A -> A -> Prop) (n : nat) (l : list A) :
  StronglySorted R l -> StronglySorted R (firstn n l).
Proof.
  revert l. induction n as [|n IH]; intros [|x l] S; simpl; try constructor.
  - inversion S; subst. now apply IH.
  - inversion S as [|? ? _ F]; subst.
    rewrite Forall_forall in *. intros y Hy. apply F.
    eapply In_firstn. exact Hy.
Qed.

Lemma get_chat_history_ok (env : Env) (limit : Z) (w : World) :
  db_fault env ChatFind = None ->
  get_chat_history env limit w
  = (Ok (map stringify_id
           (cursor_limit limit (sort_timestamp_desc (chats_collection w)))), w).
Proof.
  intros H. unfold get_chat_history, server_error, try_except, chats_find_sorted, bind, db.
  now rewrite H.
Qed.

Lemma get_chat_history_fails (env : Env) (limit : Z) (w : World) (failure : string) :
  db_fault env ChatFind = Some failure ->
  get_chat_history env limit w = (Raise (HTTPException 500 failure), w).
Proof.
  intros H. unfold get_chat_history, server_error, try_except, chats_find_sorted, bind, db.
  now rewrite H.
Qed.

(** C9, as stated, fails at N = 0: the two stored exchanges both come back. *)
Lemma history_limit_counterexample :
  fst (get_chat_history (sample_env None (inl bad_gateway) no_fault) 0 talkative_world)
  = Ok [stringify_id second_exchange; stringify_id first_exchange]
  /\ ~ (Z.of_nat (length [stringify_id second_exchange; stringify_id first_exchange]) <= 0)%Z.
Proof.
  split; [reflexivity | simpl; lia].
Qed.

(** C9, amended.  For a limit N of at least 1 (10 when the query gives
    none) and a store that answers, the history endpoint returns at most N
    records: the first N of the stored exchanges sorted by timestamp,
    newest first, each with its identifier turned into a string. *)
Theorem history_newest_first (env : Env) (query : option Z) (w : World) :
  db_fault env ChatFind = None ->
  (1 <= history_limit query)%Z ->
  exists docs : list (Stored ChatExchange),
    get_chat_history env (history_limit query) w = (Ok (map stringify_id docs), w)
    /\ (Z.of_nat (length (map stringify_id docs)) <= history_limit query)%Z
    /\ StronglySorted newer_or_equal docs
    /\ docs = firstn (Z.to_nat (history_limit query))
                     (sort_timestamp_desc (chats_collection w))
    /\ Permutation (sort_timestamp_desc (chats_collection w)) (chats_collection w)
    /\ history_limit None = 10%Z.
Proof.
  intros Hfind Hpos. set (limit := history_limit query) in *.
  exists (firstn (Z.to_nat limit) (sort_timestamp_desc (chats_collection w))).
  assert (Hcut : forall l : list (Stored ChatExchange),
             cursor_limit limit l = firstn (Z.to_nat limit) l).
  { intros l. unfold cursor_limit.
    destruct (Z.eqb_spec limit 0); [lia|].
    f_equal. lia. }
  repeat split.
  - now rewrite (get_chat_history_ok _ _ _ Hfind), Hcut.
  - rewrite length_map.
    pose proof (firstn_le_length (Z.to_nat limit)
                  (sort_timestamp_desc (chats_collection w))). lia.
  - apply firstn_sorted, sort_timestamp_desc_sorted.
  - apply sort_timestamp_desc_perm.
Qed.

Lemma history_newest_first_witness :
  exists docs : list (Stored ChatExchange),
    get_chat_history (sample_env None (inl bad_gateway) no_fault) 1 talkative_world
    = (Ok (map stringify_id docs), talkative_world)
    /\ (Z.of_nat (length (map stringify_id docs)) <= 1)%Z
    /\ StronglySorted newer_or_equal docs
    /\ docs = firstn 1 (sort_timestamp_desc (chats_collection talkative_world))
    /\ Permutation (sort_timestamp_desc (chats_collection talkative_world))
                   (chats_collection talkative_world)
    /\ history_limit None = 10%Z.
Proof.
  apply (history_newest_first (sample_env None (inl bad_gateway) no_fault)
                              (Some 1%Z) talkative_world).
  - reflexivity.
  - simpl. lia.
Defined.

(** C10.  With limit 0 and a store that answers, the history endpoint
    returns every stored exchange (newest first): the cursor treats 0 as no
    limit, so a non-empty history comes back with more than 0 records. *)
Theorem history_limit_zero_returns_all (env : Env) (w : World) :
  db_fault env ChatFind = None ->
  exists docs : list (Stored ChatExchange),
    get_chat_history env 0 w = (Ok (map stringify_id docs), w)
    /\ Permutation docs (chats_collection w)
    /\ StronglySorted newer_or_equal docs
    /\ length (map stringify_id docs) = length (chats_collection w)
    /\ (chats_collection w <> [] ->
        ~ (Z.of_nat (length (map stringify_id docs)) <= 0)%Z).
Proof.
  intros Hfind. exists (sort_timestamp_desc (chats_collection w)).
  pose proof (sort_timestamp_desc_perm (chats_collection w)) as P.
  assert (L : length (map stringify_id (sort_timestamp_desc (chats_collection w)))
              = length (chats_collection w))
    by (rewrite length_map; now apply Permutation_length).
  repeat split.
  - now rewrite (get_chat_history_ok _ _ _ Hfind).
  - exact P.
  - apply sort_timestamp_desc_sorted.
  - exact L.
  - intros Hne. rewrite L. destruct (chats_collection w); [congruence | simpl; lia].
Qed.

Lemma history_limit_zero_returns_all_witness :
  exists docs : list (Stored ChatExchange),
    get_chat_history (sample_env None (inl bad_gateway) no_fault) 0 talkative_world
    = (Ok (map stringify_id docs), talkative_world)
    /\ Permutation docs (chats_collection talkative_world)
    /\ StronglySorted newer_or_equal docs
    /\ length (map stringify_id docs) = length (chats_collection talkative_world)
    /\ (chats_collection talkative_world <> [] ->
        ~ (Z.of_nat (length (map stringify_id docs)) <= 0)%Z).
Proof.
  apply (history_limit_zero_returns_all (sample_env None (inl bad_gateway) no_fault)
                                        talkative_world).
  reflexivity.
Defined.

(* ********************************************************************* *)
(** * Further properties of the handlers *)

(* ===================================================================== *)
(** ** Chat Proxy: every path *)

Lemma handle_response_success (env : Env) (m : ChatMessage) (resp : Response)
      (a : jvalue) (w : World) :
  status_code resp = 200%Z ->
  completion_content resp = Ok a ->
  handle_response env m resp w
  = match db_fault env ChatInsert with
    | None => (make_ChatResponse a (utcnow env (clock_reads w)), recorded env m a w)
    | Some _ => (make_ChatResponse a (utcnow env (S (clock_reads w))), tick (tick w))
    end.
Proof.
  intros Hst Hcontent. unfold handle_response.
  rewrite Hst. cbn [Z.eqb Pos.eqb negb].
  rewrite (bind_ok _ _ _ _ a) by (unfold lift; rewrite Hcontent; reflexivity).
  destruct (db_fault env ChatInsert) as [failure|] eqn:Hins.
  - now rewrite (bind_ok _ _ _ _ _ (record_exchange_fails _ _ _ _ _ Hins)).
  - now rewrite (bind_ok _ _ _ _ _ (record_exchange_ok _ _ _ _ Hins)).
Qed.

Lemma handle_response_malformed (env : Env) (m : ChatMessage) (resp : Response)
      (e : exn) (w : World) :
  status_code resp = 200%Z ->
  completion_content resp = Raise e ->
  handle_response env m resp w = (Raise e, w).
Proof.
  intros Hst Hcontent. unfold handle_response.
  rewrite Hst. cbn [Z.eqb Pos.eqb negb].
  apply bind_raise. unfold lift. now rewrite Hcontent.
Qed.

Lemma handle_response_non_success (env : Env) (m : ChatMessage) (resp : Response)
      (w : World) :
  status_code resp <> 200%Z ->
  exists e, handle_response env m resp w = (Raise e, w)
            /\ (is_http e -> server_error_500 e).
Proof.
  intros Hst. apply Z.eqb_neq in Hst. unfold handle_response.
  rewrite Hst. cbn [negb].
  destruct (negb (text resp =? EmptyString)).
  - destruct (json resp) as [v|msg] eqn:J; unfold bind, lift, raise; rewrite ?J; cbn.
    + eexists; split; [reflexivity|]. intros _. red. eauto.
    + eexists; split; [reflexivity|]. intros (c & d & H). discriminate.
  - cbn. eexists; split; [reflexivity|]. intros _. red. eauto.
Qed.

(** The credential check, as a decision. *)
Lemma chat_try_unconfigured (env : Env) (m : ChatMessage) (w : World) :
  (forall api_key, ~ configured env api_key) ->
  chat_try env m w = (Raise ConfigurationError, w).
Proof.
  intros H. unfold chat_try.
  destruct (OPENROUTER_API_KEY env) as [api_key|] eqn:K; [|reflexivity].
  destruct (String.eqb_spec api_key EmptyString) as [|Hne]; [reflexivity|].
  destruct (String.eqb_spec api_key placeholder_key) as [|Hnp]; [reflexivity|].
  exfalso. apply (H api_key). repeat split; assumption.
Qed.

Lemma configured_dec (env : Env) :
  (exists api_key, configured env api_key) \/ (forall api_key, ~ configured env api_key).
Proof.
  unfold configured.
  destruct (OPENROUTER_API_KEY env) as [api_key|]; [|right; intros k (H & _); discriminate].
  destruct (String.eqb_spec api_key EmptyString) as [->|Hne];
    [right; intros k (H & H1 & _); congruence|].
  destruct (String.eqb_spec api_key placeholder_key) as [->|Hnp];
    [right; intros k (H & _ & H2); congruence|].
  left. exists api_key. repeat split; assumption.
Qed.

Lemma chat_try_find_fails (env : Env) (m : ChatMessage) (w : World)
      (api_key failure : string) :
  configured env api_key ->
  db_fault env ResumeFind = Some failure ->
  chat_try env m w = (Raise (External failure), w).
Proof.
  intros (Hkey & Hne & Hnp) Hfind.
  apply String.eqb_neq in Hne. apply String.eqb_neq in Hnp.
  unfold chat_try. rewrite Hkey, Hne, Hnp. cbn [orb].
  apply bind_raise. unfold resume_find_one. apply bind_raise. now apply db_fails.
Qed.

Lemma chat_try_transport_fails (env : Env) (m : ChatMessage) (w : World)
      (api_key failure : string) :
  configured env api_key ->
  db_fault env ResumeFind = None ->
  upstream env (request_in api_key m w) = inr failure ->
  chat_try env m w = (Raise (External failure), sent (request_in api_key m w) w).
Proof.
  intros (Hkey & Hne & Hnp) Hfind Hup.
  apply String.eqb_neq in Hne. apply String.eqb_neq in Hnp.
  unfold chat_try. rewrite Hkey, Hne, Hnp. cbn [orb].
  rewrite (bind_ok _ _ _ _ _ (resume_find_one_ok _ _ Hfind)).
  apply bind_raise. unfold post. fold (request_in api_key m w). now rewrite Hup.
Qed.

Lemma chat_surfaces (env : Env) (m : ChatMessage) (w w' : World) (r : result ChatResponse) :
  chat_try env m w = (r, w') -> chat env m w = (surfaced r, w').
Proof. intros H. rewrite (chat_of_try _ _ _ _ _ H). destruct r as [a|[]]; reflexivity. Qed.

Lemma surfaced_not_http {A : Type} (e : exn) :
  ~ is_http e -> @surfaced A (Raise e) = Raise (HTTPException 500 (str_exn e)).
Proof. intros H. destruct e; try reflexivity. exfalso. apply H. red. eauto. Qed.

(** [chat] always takes one of the ways of [chat_path]. *)
Lemma chat_takes_a_path (env : Env) (m : ChatMessage) (w : World) :
  chat_path env m w (chat env m w).
Proof.
  destruct (configured_dec env) as [(api_key & Hcfg) | Hno].
  2:{ rewrite (chat_surfaces _ _ _ _ _ (chat_try_unconfigured _ _ _ Hno)).
      now apply path_unconfigured. }
  destruct (db_fault env ResumeFind) as [failure|] eqn:Hfind.
  { rewrite (chat_surfaces _ _ _ _ _ (chat_try_find_fails _ _ _ _ _ Hcfg Hfind)).
    now apply (path_resume_unreadable _ _ _ api_key). }
  destruct (upstream env (request_in api_key m w)) as [resp|failure] eqn:Hup.
  2:{ rewrite (chat_surfaces _ _ _ _ _ (chat_try_transport_fails _ _ _ _ _ Hcfg Hfind Hup)).
      now apply (path_transport _ _ _ api_key). }
  assert (Hrep : replies env api_key m w resp) by (split; assumption).
  pose proof (chat_try_reply _ _ _ _ _ Hcfg Hrep) as T.
  destruct (Z.eq_dec (status_code resp) 200) as [Hst|Hst].
  2:{ destruct (handle_response_non_success env m resp
                  (sent (request_in api_key m w) w) Hst) as (e & He & H500).
      rewrite He in T. rewrite (chat_surfaces _ _ _ _ _ T).
      destruct e as [k|msg|msg|msg|c d];
        try (cbn [surfaced str_exn]; now apply (path_non_success _ _ _ api_key resp)).
      destruct H500 as (detail & Hd); [red; eauto|]. injection Hd as -> ->.
      now apply (path_non_success _ _ _ api_key resp). }
  destruct (completion_content resp) as [a|e] eqn:Hcontent.
  2:{ rewrite (handle_response_malformed _ _ _ _ _ Hst Hcontent) in T.
      rewrite (chat_surfaces _ _ _ _ _ T).
      rewrite (surfaced_not_http _ (completion_content_not_http _ _ Hcontent)).
      now apply (path_malformed _ _ _ api_key resp). }
  rewrite (handle_response_success _ _ _ _ _ Hst Hcontent) in T.
  destruct (db_fault env ChatInsert) as [failure|] eqn:Hins;
    rewrite (chat_surfaces _ _ _ _ _ T).
  - exact (path_unrecorded env m w api_key resp a failure Hcfg Hrep Hst Hcontent Hins).
  - exact (path_recorded env m w api_key resp a Hcfg Hrep Hst Hcontent Hins).
Qed.

(** X1.  A successful exchange: with a usable credential, a reply of status
    200 whose completion is a string, and a history that accepts the
    insertion, [chat] sends one request, appends one exchange holding the
    user's message and the answer, and returns the answer with the very
    timestamp it stored. *)
Theorem chat_records_what_it_returns
        (env : Env) (m : ChatMessage) (w : World)
        (api_key : string) (resp : Response) (answer : string) :
  configured env api_key ->
  replies env api_key m w resp ->
  status_code resp = 200%Z ->
  completion_content resp = Ok (JStr answer) ->
  db_fault env ChatInsert = None ->
  chat env m w
  = (Ok (mkChatResponse answer (utcnow env (clock_reads w))),
     recorded env m (JStr answer) (sent (request_in api_key m w) w))
  /\ chats_collection (snd (chat env m w))
     = (chats_collection w
        ++ [mkStored (next_id w)
              (mkChatExchange (message m) (JStr answer) (utcnow env (clock_reads w)))])%list.
Proof.
  intros Hcfg Hrep Hst Hcontent Hins.
  pose proof (chat_try_reply _ _ _ _ _ Hcfg Hrep) as T.
  rewrite (handle_response_success _ _ _ _ _ Hst Hcontent), Hins in T.
  rewrite (chat_surfaces _ _ _ _ _ T). split; reflexivity.
Qed.

Lemma chat_records_what_it_returns_witness :
  chats_collection
    (snd (chat (sample_env (Some sample_key) (inl (completion "Hello")) no_fault)
               hi empty_world))
  = [mkStored 0%N (mkChatExchange "hi" (JStr "Hello") "2024-05-01T10:00:00")].
Proof.
  apply (chat_records_what_it_returns
           (sample_env (Some sample_key) (inl (completion "Hello")) no_fault)
           hi empty_world sample_key (completion "Hello") "Hello").
  - repeat split; discriminate.
  - split; reflexivity.
  - reflexivity.
  - reflexivity.
  - reflexivity.
Defined.

(** X2.  A transport failure (timeout, refused connection): the request
    has left, the caller gets an HTTP 500 carrying the transport's message,
    and nothing is appended to the history. *)
Theorem chat_transport_failure
        (env : Env) (m : ChatMessage) (w : World) (api_key failure : string) :
  configured env api_key ->
  db_fault env ResumeFind = None ->
  upstream env (request_in api_key m w) = inr failure ->
  chat env m w
  = (Raise (HTTPException 500 failure), sent (request_in api_key m w) w)
  /\ chats_collection (snd (chat env m w)) = chats_collection w.
Proof.
  intros Hcfg Hfind Hup.
  rewrite (chat_surfaces _ _ _ _ _ (chat_try_transport_fails _ _ _ _ _ Hcfg Hfind Hup)).
  split; reflexivity.
Qed.

Lemma chat_transport_failure_witness :
  chat (sample_env (Some sample_key) (inr "timed out") no_fault) hi empty_world
  = (Raise (HTTPException 500 "timed out"),
     sent (request_in sample_key hi empty_world) empty_world).
Proof.
  apply (chat_transport_failure (sample_env (Some sample_key) (inr "timed out") no_fault)
                                hi empty_world sample_key "timed out").
  - repeat split; discriminate.
  - reflexivity.
  - reflexivity.
Defined.

(** X3.  When the resume cannot be read while the prompt is being built,
    [chat] fails with an HTTP 500 carrying the store's message before any
    request is sent: the world is unchanged. *)
Theorem chat_resume_unreadable
        (env : Env) (m : ChatMessage) (w : World) (api_key failure : string) :
  configured env api_key ->
  db_fault env ResumeFind = Some failure ->
  chat env m w = (Raise (HTTPException 500 failure), w).
Proof.
  intros Hcfg Hfind.
  now rewrite (chat_surfaces _ _ _ _ _ (chat_try_find_fails _ _ _ _ _ Hcfg Hfind)).
Qed.

Lemma chat_resume_unreadable_witness :
  chat (sample_env (Some sample_key) (inl (completion "Hello"))
          (fun op => match op with ResumeFind => Some "no primary" | _ => None end))
       hi empty_world
  = (Raise (HTTPException 500 "no primary"), empty_world).
Proof.
  apply (chat_resume_unreadable
           (sample_env (Some sample_key) (inl (completion "Hello"))
              (fun op => match op with ResumeFind => Some "no primary" | _ => None end))
           hi empty_world sample_key "no primary").
  - repeat split; discriminate.
  - reflexivity.
Defined.

Lemma surfaced_response_500 (a : jvalue) (t : string) :
  match surfaced (make_ChatResponse a t) with
  | Ok _ => True
  | Raise e => server_error_500 e
  end.
Proof. destruct a; cbn; try exact I; red; eauto. Qed.

(** X4.  Whatever the surroundings, [chat] either returns a response or
    raises an HTTP error with status 500: no other status and no other
    exception ever leaves the handler. *)
Theorem chat_fails_only_with_500 (env : Env) (m : ChatMessage) (w : World) :
  match fst (chat env m w) with
  | Ok _ => True
  | Raise e => server_error_500 e
  end.
Proof.
  destruct (chat_takes_a_path env m w); cbn [fst];
    try (unfold server_error_500, ConfigurationError; eexists; reflexivity);
    apply surfaced_response_500.
Qed.

Lemma chat_outbound_effect (env : Env) (m : ChatMessage) (w : World) :
  outbound (snd (chat env m w)) = outbound w
  \/ exists api_key,
       OPENROUTER_API_KEY env = Some api_key
       /\ outbound (snd (chat env m w)) = (outbound w ++ [request_in api_key m w])%list.
Proof.
  destruct (chat_takes_a_path env m w) as
    [ | | k f Hc | k r d Hc | k r e Hc | k r a Hc | k r a f Hc ];
    cbn [snd]; try (left; reflexivity);
    right; exists k; (split; [apply Hc | reflexivity]).
Qed.

Lemma chat_history_effect (env : Env) (m : ChatMessage) (w : World) :
  chats_collection (snd (chat env m w)) = chats_collection w
  \/ exists a t,
       chats_collection (snd (chat env m w))
       = (chats_collection w
          ++ [mkStored (next_id w) (mkChatExchange (message m) a t)])%list.
Proof.
  destruct (chat_takes_a_path env m w); cbn [snd]; try (left; reflexivity).
  right. eexists _, _. reflexivity.
Qed.

(** X5.  The effects of one [chat] call are bounded: the resume collection
    is untouched; at most one request is sent (there is no retry), and it is
    the request built from the credential, the current resume and the
    user's message; at most one exchange is appended, under a fresh
    identifier and with the user's message, and no stored exchange is
    changed. *)
Theorem chat_effects_are_bounded (env : Env) (m : ChatMessage) (w : World) :
  resume_collection (snd (chat env m w)) = resume_collection w
  /\ (outbound (snd (chat env m w)) = outbound w
      \/ exists api_key,
           OPENROUTER_API_KEY env = Some api_key
           /\ outbound (snd (chat env m w))
              = (outbound w ++ [request_in api_key m w])%list)
  /\ (chats_collection (snd (chat env m w)) = chats_collection w
      \/ exists a t,
           chats_collection (snd (chat env m w))
           = (chats_collection w
              ++ [mkStored (next_id w) (mkChatExchange (message m) a t)])%list).
Proof.
  split; [apply keeps_chat|].
  split; [apply chat_outbound_effect | apply chat_history_effect].
Qed.

(** X6.  A reply of status 200 whose completion content is [null] is
    recorded in the history and then rejected when the response model is
    built: the caller gets an HTTP 500 although the exchange was stored. *)
Theorem chat_null_content_is_recorded
        (env : Env) (m : ChatMessage) (w : World) (api_key : string) (resp : Response) :
  configured env api_key ->
  replies env api_key m w resp ->
  status_code resp = 200%Z ->
  completion_content resp = Ok JNull ->
  db_fault env ChatInsert = None ->
  (exists detail, fst (chat env m w) = Raise (HTTPException 500 detail))
  /\ chats_collection (snd (chat env m w))
     = (chats_collection w
        ++ [mkStored (next_id w)
              (mkChatExchange (message m) JNull (utcnow env (clock_reads w)))])%list.
Proof.
  intros Hcfg Hrep Hst Hcontent Hins.
  pose proof (chat_try_reply _ _ _ _ _ Hcfg Hrep) as T.
  rewrite (handle_response_success _ _ _ _ _ Hst Hcontent), Hins in T.
  rewrite (chat_surfaces _ _ _ _ _ T). split; [cbn; eauto | reflexivity].
Qed.

Lemma chat_null_content_is_recorded_witness :
  chats_collection
    (snd (chat (sample_env (Some sample_key)
                  (inl (mkResponse 200 "{...}"
                     (inl (JObj [("choices",
                        JArr [JObj [("message", JObj [("content", JNull)])]])]))))
                  no_fault)
               hi empty_world))
  = [mkStored 0%N (mkChatExchange "hi" JNull "2024-05-01T10:00:00")].
Proof.
  apply (chat_null_content_is_recorded
           (sample_env (Some sample_key)
              (inl (mkResponse 200 "{...}"
                 (inl (JObj [("choices",
                    JArr [JObj [("message", JObj [("content", JNull)])]])]))))
              no_fault)
           hi empty_world sample_key
           (mkResponse 200 "{...}"
              (inl (JObj [("choices",
                 JArr [JObj [("message", JObj [("content", JNull)])]])])))).
  - repeat split; discriminate.
  - split; reflexivity.
  - reflexivity.
  - reflexivity.
  - reflexivity.
Defined.

(** X7.  An empty credential counts as a missing one: any credential that
    is absent, empty or the placeholder makes [chat] raise the
    configuration error and leave the world unchanged. *)
Theorem chat_unusable_credential (env : Env) (m : ChatMessage) (w : World) :
  OPENROUTER_API_KEY env = None
  \/ OPENROUTER_API_KEY env = Some EmptyString
  \/ OPENROUTER_API_KEY env = Some placeholder_key ->
  chat env m w = (Raise ConfigurationError, w).
Proof.
  intros H.
  rewrite (chat_surfaces env m w w (Raise ConfigurationError)); [reflexivity|].
  apply chat_try_unconfigured. intros k (Hk & Hne & Hnp).
  destruct H as [H | [H | H]]; rewrite H in Hk; [discriminate | |];
    injection Hk as <-; congruence.
Qed.

Lemma chat_unusable_credential_witness :
  chat (sample_env (Some EmptyString) (inl (completion "Hello")) no_fault) hi empty_world
  = (Raise ConfigurationError, empty_world).
Proof.
  apply (chat_unusable_credential
           (sample_env (Some EmptyString) (inl (completion "Hello")) no_fault)
           hi empty_world).
  right. left. reflexivity.
Defined.

(** X26.  The history records exactly the exchanges that were answered:
    a [chat] call changes the history if and only if the credential is
    usable, the upstream reply has status 200 with a completion in place,
    and the insertion is accepted.  Whether the caller then receives the
    answer plays no part. *)
Theorem chat_records_iff_answered (env : Env) (m : ChatMessage) (w : World) :
  chats_collection (snd (chat env m w)) <> chats_collection w
  <-> exists api_key resp a,
        configured env api_key
        /\ replies env api_key m w resp
        /\ status_code resp = 200%Z
        /\ completion_content resp = Ok a
        /\ db_fault env ChatInsert = None.
Proof.
  split.
  - intros H.
    destruct (chat_takes_a_path env m w) as
      [ | | | | | k r a Hc Hr Hs Ha Hi | ]; cbn [snd] in H;
      try (now elim H).
    exists k, r, a. repeat split; assumption || apply Hc || apply Hr.
  - intros (k & r & a & Hcfg & Hrep & Hst & Hcontent & Hins).
    pose proof (chat_try_reply _ _ _ _ _ Hcfg Hrep) as T.
    rewrite (handle_response_success _ _ _ _ _ Hst Hcontent), Hins in T.
    rewrite (chat_surfaces _ _ _ _ _ T). cbn [snd recorded chats_collection sent].
    intros E. apply (f_equal (@length _)) in E. rewrite length_app in E.
    simpl in E. lia.
Qed.

(* ===================================================================== *)
(** ** Startup and the resume endpoints *)

Lemma initialize_resume_world (env : Env) (w : World) :
  snd (initialize_resume env w)
  = match db_fault env ResumeCount, resume_collection w, db_fault env ResumeInsert with
    | None, [], None =>
        mkWorld [mkStored (next_id w) seed_resume] (chats_collection w)
                (N.succ (next_id w)) (clock_reads w) (outbound w)
    | _, _, _ => w
    end.
Proof.
  unfold initialize_resume, resume_count_documents, resume_insert_one, bind, db.
  destruct (db_fault env ResumeCount); [reflexivity|]. cbn.
  destruct (resume_collection w) eqn:E; cbn; [|reflexivity].
  destruct (db_fault env ResumeInsert); cbn; [reflexivity|].
  now rewrite E.
Qed.

(** X8.  Startup is idempotent: under the same surroundings, initialising
    twice leaves the world exactly as initialising once. *)
Theorem startup_is_idempotent (env : Env) (w : World) :
  snd (initialize_resume env (snd (initialize_resume env w)))
  = snd (initialize_resume env w).
Proof.
  rewrite (initialize_resume_world env (snd (initialize_resume env w))).
  rewrite (initialize_resume_world env w).
  destruct (db_fault env ResumeCount); [reflexivity|].
  destruct (resume_collection w) eqn:E; [|now rewrite E].
  destruct (db_fault env ResumeInsert); [now rewrite E | reflexivity].
Qed.

(** X9.  Startup never overwrites: when a resume is already stored, the
    seed is not inserted and the world is unchanged, so an edited resume
    survives a restart. *)
Theorem startup_keeps_existing_resume (env : Env) (w : World) :
  resume_collection w <> [] ->
  snd (initialize_resume env w) = w.
Proof.
  intros H. rewrite initialize_resume_world.
  destruct (db_fault env ResumeCount); [reflexivity|].
  destruct (resume_collection w); [congruence | reflexivity].
Qed.

Lemma startup_keeps_existing_resume_witness :
  snd (initialize_resume (sample_env None (inl bad_gateway) no_fault)
         (upserted python_resume empty_world))
  = upserted python_resume empty_world.
Proof.
  apply (startup_keeps_existing_resume (sample_env None (inl bad_gateway) no_fault)
                                       (upserted python_resume empty_world)).
  discriminate.
Defined.

(** X10.  First start: on an empty resume collection and a store that
    answers, startup followed by [GET /api/resume] returns the seed
    document, under the identifier it was inserted with. *)
Theorem startup_then_get_resume (env : Env) (w : World) :
  resume_collection w = [] ->
  db_fault env ResumeCount = None ->
  db_fault env ResumeInsert = None ->
  db_fault env ResumeFind = None ->
  fst (get_resume env (snd (initialize_resume env w)))
  = Ok (ResumeFound (mkReturned (str_ObjectId (next_id w)) seed_resume)).
Proof.
  intros Hempty Hcount Hinsert Hfind.
  rewrite initialize_resume_world, Hcount, Hempty, Hinsert.
  now rewrite (get_resume_ok _ _ Hfind).
Qed.

Lemma startup_then_get_resume_witness :
  fst (get_resume (sample_env None (inl bad_gateway) no_fault)
         (snd (initialize_resume (sample_env None (inl bad_gateway) no_fault) empty_world)))
  = Ok (ResumeFound (mkReturned "000000000000000000000000" seed_resume)).
Proof.
  apply (startup_then_get_resume (sample_env None (inl bad_gateway) no_fault) empty_world);
    reflexivity.
Defined.

Lemma get_resume_world (env : Env) (w : World) : snd (get_resume env w) = w.
Proof.
  unfold get_resume, server_error, try_except, resume_find_one, bind, db.
  destruct (db_fault env ResumeFind); reflexivity.
Qed.

Lemma get_chat_history_world (env : Env) (limit : Z) (w : World) :
  snd (get_chat_history env limit w) = w.
Proof.
  destruct (db_fault env ChatFind) as [failure|] eqn:H.
  - now rewrite (get_chat_history_fails _ _ _ _ H).
  - now rewrite (get_chat_history_ok _ _ _ H).
Qed.

Lemma update_resume_world (env : Env) (d : ResumeDocument) (w : World) :
  snd (update_resume env d w)
  = match db_fault env ResumeReplace with
    | Some _ => w
    | None => upserted d w
    end.
Proof.
  destruct (db_fault env ResumeReplace) as [failure|] eqn:H.
  - unfold update_resume, server_error, try_except, resume_replace_one_upsert, bind, db.
    now rewrite H.
  - now destruct (update_resume_ok env d w H) as [E _].
Qed.

(** X11.  The read endpoints are read-only: whether the store answers or
    fails, [GET /api/resume] and [GET /api/chat/history] leave the world
    exactly as it was. *)
Theorem reads_change_nothing (env : Env) (limit : Z) (w : World) :
  snd (get_resume env w) = w /\ snd (get_chat_history env limit w) = w.
Proof.
  split; [apply get_resume_world | apply get_chat_history_world].
Qed.

(** X12.  A missing resume is not an error: on an empty collection
    [GET /api/resume] answers normally with the placeholder message, and
    only a failing store turns into an HTTP 500 carrying the store's
    message. *)
Theorem get_resume_without_resume (env : Env) (w : World) :
  resume_collection w = [] ->
  fst (get_resume env w)
  = match db_fault env ResumeFind with
    | None => Ok (ResumeMissing "No resume data found")
    | Some failure => Raise (HTTPException 500 failure)
    end.
Proof.
  intros H. unfold get_resume, server_error, try_except, resume_find_one, bind, db.
  destruct (db_fault env ResumeFind); cbn; [reflexivity|]. now rewrite H.
Qed.

Lemma get_resume_without_resume_witness :
  fst (get_resume (sample_env None (inl bad_gateway) no_fault) empty_world)
  = Ok (ResumeMissing "No resume data found").
Proof.
  apply (get_resume_without_resume (sample_env None (inl bad_gateway) no_fault) empty_world).
  reflexivity.
Defined.

(** X13.  A failed replacement is all-or-nothing: when the store rejects
    the write, [PUT /api/resume] raises an HTTP 500 carrying the store's
    message and the world, the stored resume included, is unchanged. *)
Theorem update_resume_failure (env : Env) (d : ResumeDocument) (w : World)
        (failure : string) :
  db_fault env ResumeReplace = Some failure ->
  update_resume env d w = (Raise (HTTPException 500 failure), w).
Proof.
  intros H.
  unfold update_resume, server_error, try_except, resume_replace_one_upsert, bind, db.
  now rewrite H.
Qed.

Lemma update_resume_failure_witness :
  update_resume
    (sample_env None (inl bad_gateway)
       (fun op => match op with ResumeReplace => Some "not primary" | _ => None end))
    python_resume empty_world
  = (Raise (HTTPException 500 "not primary"), empty_world).
Proof.
  apply (update_resume_failure
           (sample_env None (inl bad_gateway)
              (fun op => match op with ResumeReplace => Some "not primary" | _ => None end))
           python_resume empty_world "not primary").
  reflexivity.
Defined.

(** X14.  Last write wins: two replacements in a row leave the world
    exactly as the second one alone would, whatever was stored before. *)
Theorem update_resume_last_write_wins (env : Env) (a b : ResumeDocument) (w : World) :
  db_fault env ResumeReplace = None ->
  snd (update_resume env b (snd (update_resume env a w)))
  = snd (update_resume env b w).
Proof.
  intros H.
  destruct (update_resume_ok env a w H) as [Ea _]. rewrite Ea.
  destruct (update_resume_ok env b (upserted a w) H) as [Eb _]. rewrite Eb.
  destruct (update_resume_ok env b w H) as [Eb' _]. rewrite Eb'.
  unfold upserted. destruct (resume_collection w); reflexivity.
Qed.

Lemma update_resume_last_write_wins_witness :
  snd (update_resume (sample_env None (inl bad_gateway) no_fault) python_resume
         (snd (update_resume (sample_env None (inl bad_gateway) no_fault)
                 seed_resume empty_world)))
  = snd (update_resume (sample_env None (inl bad_gateway) no_fault)
           python_resume empty_world).
Proof.
  apply (update_resume_last_write_wins (sample_env None (inl bad_gateway) no_fault)
                                       seed_resume python_resume empty_world).
  reflexivity.
Defined.

(** X15.  An insertion is not a modification: on an empty collection and
    a store that answers, [PUT /api/resume] succeeds, stores the payload
    under a fresh identifier, and reports a modification count of 0. *)
Theorem update_resume_first_write (env : Env) (d : ResumeDocument) (w : World) :
  resume_collection w = [] ->
  db_fault env ResumeReplace = None ->
  update_resume env d w
  = (Ok (mkUpdateReply "Resume updated successfully" 0),
     mkWorld [mkStored (next_id w) d] (chats_collection w) (N.succ (next_id w))
             (clock_reads w) (outbound w)).
Proof.
  intros Hempty H.
  unfold update_resume, server_error, try_except, resume_replace_one_upsert, bind, db.
  rewrite H. cbn. now rewrite Hempty.
Qed.

Lemma update_resume_first_write_witness :
  update_resume (sample_env None (inl bad_gateway) no_fault) python_resume empty_world
  = (Ok (mkUpdateReply "Resume updated successfully" 0),
     mkWorld [mkStored 0%N python_resume] [] 1%N 0 []).
Proof.
  apply (update_resume_first_write (sample_env None (inl bad_gateway) no_fault)
                                   python_resume empty_world); reflexivity.
Defined.

(* ===================================================================== *)
(** ** Chat history: counts, composition, append-only *)

Lemma length_sort_timestamp_desc (l : list (Stored ChatExchange)) :
  length (sort_timestamp_desc l) = length l.
Proof. apply Permutation_length, sort_timestamp_desc_perm. Qed.

(** X16.  For a limit N of at least 1 and a store that answers, the
    history endpoint returns exactly min(N, size of the history) records;
    in particular a limit at least as large as the history returns all of
    it. *)
Theorem history_returns_min (env : Env) (limit : Z) (w : World) :
  db_fault env ChatFind = None ->
  (1 <= limit)%Z ->
  exists chats,
    fst (get_chat_history env limit w) = Ok chats
    /\ length chats = Nat.min (Z.to_nat limit) (length (chats_collection w)).
Proof.
  intros Hfind Hpos. rewrite (get_chat_history_ok _ _ _ Hfind). eexists. split; [reflexivity|].
  rewrite length_map. unfold cursor_limit.
  destruct (Z.eqb_spec limit 0); [lia|].
  rewrite length_firstn, length_sort_timestamp_desc. f_equal. lia.
Qed.

Lemma history_returns_min_witness :
  exists chats,
    fst (get_chat_history (sample_env None (inl bad_gateway) no_fault) 5 talkative_world)
    = Ok chats
    /\ length chats = 2.
Proof.
  apply (history_returns_min (sample_env None (inl bad_gateway) no_fault) 5 talkative_world).
  - reflexivity.
  - lia.
Defined.

(** An exchange strictly newer than all the stored ones sorts first. *)
Lemma sort_newest_last (d : Stored ChatExchange) (l : list (Stored ChatExchange)) :
  Forall (fun x => String.ltb (timestamp (body x)) (timestamp (body d)) = true) l ->
  sort_timestamp_desc (l ++ [d]) = d :: sort_timestamp_desc l.
Proof.
  induction l as [|x l IH]; intros H; [reflexivity|].
  inversion H as [|? ? Hx Hl]; subst.
  cbn [app sort_timestamp_desc]. rewrite (IH Hl). cbn [insert_desc].
  replace (String.leb (timestamp (body d)) (timestamp (body x))) with false; [reflexivity|].
  unfold String.ltb in Hx. unfold String.leb.
  rewrite String.compare_antisym.
  destruct (String.compare (timestamp (body x)) (timestamp (body d)));
    try discriminate. reflexivity.
Qed.

(** X17.  Chat, then history: after a successful exchange whose timestamp
    is later than every stored one, [GET /api/chat/history?limit=1] returns
    exactly that exchange, with the identifier it was stored under. *)
Theorem chat_then_history
        (env : Env) (m : ChatMessage) (w : World)
        (api_key : string) (resp : Response) (answer : string) :
  configured env api_key ->
  replies env api_key m w resp ->
  status_code resp = 200%Z ->
  completion_content resp = Ok (JStr answer) ->
  db_fault env ChatInsert = None ->
  db_fault env ChatFind = None ->
  Forall (fun x => String.ltb (timestamp (body x)) (utcnow env (clock_reads w)) = true)
         (chats_collection w) ->
  fst (get_chat_history env 1 (snd (chat env m w)))
  = Ok [mkReturned (str_ObjectId (next_id w))
          (mkChatExchange (message m) (JStr answer) (utcnow env (clock_reads w)))].
Proof.
  intros Hcfg Hrep Hst Hcontent Hins Hfind Hnew.
  pose proof (chat_try_reply _ _ _ _ _ Hcfg Hrep) as T.
  rewrite (handle_response_success _ _ _ _ _ Hst Hcontent), Hins in T.
  rewrite (chat_surfaces _ _ _ _ _ T). cbn [snd].
  rewrite (get_chat_history_ok _ _ _ Hfind). cbn [fst]. f_equal.
  unfold recorded. cbn [chats_collection sent next_id clock_reads].
  rewrite sort_newest_last by exact Hnew.
  reflexivity.
Qed.

Lemma chat_then_history_witness :
  fst (get_chat_history (sample_env (Some sample_key) (inl (completion "Hello")) no_fault) 1
         (snd (chat (sample_env (Some sample_key) (inl (completion "Hello")) no_fault)
                    hi empty_world)))
  = Ok [mkReturned "000000000000000000000000"
          (mkChatExchange "hi" (JStr "Hello") "2024-05-01T10:00:00")].
Proof.
  apply (chat_then_history (sample_env (Some sample_key) (inl (completion "Hello")) no_fault)
                           hi empty_world sample_key (completion "Hello") "Hello").
  - repeat split; discriminate.
  - split; reflexivity.
  - reflexivity.
  - reflexivity.
  - reflexivity.
  - reflexivity.
  - constructor.
Defined.

Lemma run_history_effect (env : Env) (op : operation) (w : World) :
  exists suffix,
    chats_collection (run env op w) = (chats_collection w ++ suffix)%list
    /\ length suffix <= 1.
Proof.
  destruct op as [| |m|limit| |d]; cbn [run].
  - exists []. rewrite app_nil_r. split; [|simpl; lia].
    rewrite initialize_resume_world.
    destruct (db_fault env ResumeCount), (resume_collection w),
      (db_fault env ResumeInsert); reflexivity.
  - exists []. rewrite app_nil_r. split; [reflexivity | simpl; lia].
  - destruct (chat_history_effect env m w) as [E | (a & t & E)]; rewrite E.
    + exists []. rewrite app_nil_r. split; [reflexivity | simpl; lia].
    + eexists. split; [reflexivity | simpl; lia].
  - exists []. rewrite app_nil_r, get_chat_history_world. split; [reflexivity | simpl; lia].
  - exists []. rewrite app_nil_r, get_resume_world. split; [reflexivity | simpl; lia].
  - exists []. rewrite app_nil_r, update_resume_world. split; [|simpl; lia].
    destruct (db_fault env ResumeReplace); [reflexivity|].
    unfold upserted. destruct (resume_collection w); reflexivity.
Qed.

(** X18.  The chat history is append-only: over any sequence of
    operations, each under any surroundings, the history at the end is the
    history at the start followed by the exchanges added since, at most one
    per operation; no stored exchange is ever changed, reordered or
    removed. *)
Theorem history_is_append_only (ops : list (Env * operation)) (w : World) :
  exists suffix,
    chats_collection (run_all ops w) = (chats_collection w ++ suffix)%list
    /\ length suffix <= length ops.
Proof.
  revert w. induction ops as [|[env op] ops IH]; intros w.
  - exists []. rewrite app_nil_r. split; [reflexivity | simpl; lia].
  - change (run_all ((env, op) :: ops) w) with (run_all ops (run env op w)).
    destruct (run_history_effect env op w) as (s1 & E1 & L1).
    destruct (IH (run env op w)) as (s2 & E2 & L2).
    exists (s1 ++ s2)%list. rewrite E2, E1, <- app_assoc, length_app.
    split; [reflexivity | simpl; lia].
Qed.

Lemma chat_sends_request (env : Env) (m : ChatMessage) (w : World) (api_key : string) :
  configured env api_key ->
  db_fault env ResumeFind = None ->
  outbound (snd (chat env m w)) = (outbound w ++ [request_in api_key m w])%list.
Proof.
  intros Hcfg Hfind.
  assert (same : forall k, configured env k -> k = api_key).
  { intros k (Hk & _). destruct Hcfg as (Hk' & _). congruence. }
  destruct (chat_takes_a_path env m w) as
    [ Hno | k f Hc Hf | k f Hc | k r d Hc | k r e Hc | k r a Hc | k r a f Hc ];
    cbn [snd].
  - now destruct (Hno api_key).
  - congruence.
  - now rewrite (same k Hc).
  - now rewrite (same k Hc).
  - now rewrite (same k Hc).
  - now rewrite (same k Hc).
  - now rewrite (same k Hc).
Qed.

(** X19.  The prompt follows the stored resume: after a replacement that
    the store carried out, the next [chat] sends exactly one request, whose
    system message is the context rendered from the document just written
    and whose user message is the caller's text, with the bearer credential,
    the fixed model and the 30 second timeout. *)
Theorem chat_uses_latest_resume
        (env : Env) (d : ResumeDocument) (m : ChatMessage) (w : World) (api_key : string) :
  db_fault env ResumeReplace = None ->
  configured env api_key ->
  db_fault env ResumeFind = None ->
  outbound (snd (chat env m (snd (update_resume env d w))))
  = (outbound w
     ++ [mkRequest "https://openrouter.ai/api/v1/chat/completions"
                   ("Bearer " ++ api_key) "application/json" "openrouter/auto:free"
                   (rendered_sections d) (message m) 30])%list.
Proof.
  intros Hrep Hcfg Hfind.
  rewrite (chat_sends_request _ _ _ _ Hcfg Hfind).
  rewrite update_resume_world, Hrep.
  unfold request_in, completion_request, upserted.
  destruct (resume_collection w); cbn [resume_collection outbound hd_error];
    now rewrite get_resume_context_sections.
Qed.

Lemma chat_uses_latest_resume_witness :
  outbound
    (snd (chat (sample_env (Some sample_key) (inl (completion "Hello")) no_fault) hi
            (snd (update_resume
                    (sample_env (Some sample_key) (inl (completion "Hello")) no_fault)
                    python_resume empty_world))))
  = [mkRequest "https://openrouter.ai/api/v1/chat/completions"
               ("Bearer " ++ sample_key) "application/json" "openrouter/auto:free"
               (rendered_sections python_resume) "hi" 30].
Proof.
  apply (chat_uses_latest_resume
           (sample_env (Some sample_key) (inl (completion "Hello")) no_fault)
           python_resume hi empty_world sample_key).
  - reflexivity.
  - repeat split; discriminate.
  - reflexivity.
Defined.

(* ===================================================================== *)
(** ** Context Builder: what reaches the prompt *)

(** X20.  The context depends only on the visible part of the resume:
    two stored documents that agree on personal fields, degree and status
    of each education entry, skills, name and description of each project
    and the bio render the same context, whatever their identifiers,
    institutions and technologies, and whether an empty section is absent
    or present. *)
Theorem context_depends_on_visible_part (doc doc' : Stored ResumeDocument) :
  visible (body doc) = visible (body doc') ->
  get_resume_context (Some doc) = get_resume_context (Some doc').
Proof.
  intros H. rewrite !get_resume_context_sections.
  unfold visible in H. injection H as Hp He Hs Hj Ha.
  unfold rendered_sections, education_section, projects_section.
  cbv zeta. rewrite Hp, Hs, Ha.
  replace (map education_line (get_default (education (body doc)) []))
    with (map (fun v => fmt (fst v) ++ " - " ++ fmt (snd v))
              (map visible_education (get_default (education (body doc)) [])))
    by (now rewrite map_map).
  replace (map project_line (get_default (projects (body doc)) []))
    with (map (fun v => fmt (fst v) ++ ": " ++ fmt (snd v))
              (map visible_project (get_default (projects (body doc)) [])))
    by (now rewrite map_map).
  rewrite He, Hj, !map_map. reflexivity.
Qed.

Lemma context_depends_on_visible_part_witness :
  get_resume_context
    (Some (mkStored 1%N (mkResume None (Some [mkEducation (Some "BSc") None (Some "MIT")])
                                  None None None)))
  = get_resume_context
      (Some (mkStored 2%N (mkResume (Some empty_personal)
                                    (Some [mkEducation (Some "BSc") None None])
                                    (Some []) (Some []) (Some EmptyString)))).
Proof.
  apply (context_depends_on_visible_part
           (mkStored 1%N (mkResume None (Some [mkEducation (Some "BSc") None (Some "MIT")])
                                   None None None))
           (mkStored 2%N (mkResume (Some empty_personal)
                                   (Some [mkEducation (Some "BSc") None None])
                                   (Some []) (Some []) (Some EmptyString)))).
  reflexivity.
Defined.

(** X21.  A resume without a candidate name: the role framing falls back
    to "the candidate", while the Name field, read without a default, is
    rendered as the text None. *)
Theorem context_without_name (doc : Stored ResumeDocument) :
  name (get_default (personal_info (body doc)) empty_personal) = None ->
  String.prefix nameless_opening (get_resume_context (Some doc)) = true.
Proof.
  intros H. rewrite get_resume_context_sections.
  unfold rendered_sections, role_framing, personal_fields. cbv zeta. rewrite H.
  cbn [get_default fmt].
  rewrite ?append_assoc.
  match goal with
  | |- String.prefix _ ?ctx = true =>
      match ctx with
      | context [ "Title: " ++ ?rest ] =>
          change ctx with (nameless_opening ++ ("Title: " ++ rest))
      end
  end.
  apply prefix_append.
Qed.

Lemma context_without_name_witness :
  String.prefix nameless_opening
    (get_resume_context (Some (mkStored 1%N (mkResume None None None None None)))) = true.
Proof.
  apply (context_without_name (mkStored 1%N (mkResume None None None None None))).
  reflexivity.
Defined.

(* ===================================================================== *)
(** ** Reading the completion out of a reply *)

Lemma getitem_str_ok (v : jvalue) (key : string) (x : jvalue) :
  getitem_str v key = Ok x <->
  exists members, v = JObj members /\ dict_lookup key members = Some x.
Proof.
  split.
  - destruct v; try discriminate. simpl.
    destruct (dict_lookup key members) eqn:E; [|discriminate].
    intros H. injection H as <-. eauto.
  - intros (members & -> & E). simpl. now rewrite E.
Qed.

Lemma bind_result_ok {A B : Type} (r : result A) (f : A -> result B) (b : B) :
  bind_result r f = Ok b <-> exists a, r = Ok a /\ f a = Ok b.
Proof.
  split.
  - destruct r; simpl; [eauto | discriminate].
  - intros (a & -> & H). exact H.
Qed.

(** X22.  [chat] finds a completion in exactly one shape of body: a JSON
    object whose [choices] is a list starting with an object, whose
    [message] is an object with a [content] member.  Further choices and
    further members are ignored; every other body makes the lookup fail. *)
Theorem completion_content_shape (resp : Response) (content : jvalue) :
  completion_content resp = Ok content <->
  exists body, json resp = inl body /\ well_shaped body content.
Proof.
  unfold completion_content, well_shaped. split.
  - intros H.
    apply bind_result_ok in H as (body & Hj & H).
    apply bind_result_ok in H as (choices & Hc & H).
    apply bind_result_ok in H as (choice & H0 & H).
    apply bind_result_ok in H as (msg & Hm & H).
    apply getitem_str_ok in Hc as (members & -> & Hc).
    apply getitem_str_ok in Hm as (cm & -> & Hm).
    apply getitem_str_ok in H as (mm & -> & H).
    destruct (json resp) as [b|]; [|discriminate]. injection Hj as ->.
    exists (JObj members). split; [reflexivity|].
    destruct choices as [| | | |s|items|]; try discriminate.
    + destruct s; discriminate.
    + destruct items as [|first others]; [discriminate|]. injection H0 as ->.
      exists members, cm, others, mm. repeat split; assumption.
  - intros (body & Hj & members & cm & others & mm & -> & Hc & Hm & H).
    rewrite Hj. cbn [external bind_result getitem_str].
    rewrite Hc. cbn [bind_result getitem_0 getitem_str].
    rewrite Hm. cbn [bind_result getitem_str]. now rewrite H.
Qed.

(* ===================================================================== *)
(** ** CORS origins *)

Lemma split_char_not_nil (sep : ascii) (s : string) : split_char sep s <> [].
Proof.
  destruct s as [|c t]; simpl; [discriminate|].
  destruct (Ascii.eqb c sep); [discriminate|].
  destruct (split_char sep t); discriminate.
Qed.

Lemma length_split_char (sep : ascii) (s : string) :
  length (split_char sep s) = S (count_char sep s).
Proof.
  induction s as [|c t IH]; simpl; [reflexivity|].
  destruct (Ascii.eqb c sep); simpl; [now rewrite IH|].
  destruct (split_char sep t) eqn:E; simpl in *; [discriminate | exact IH].
Qed.

(** X23.  The origin list has one entry per comma-separated field: its
    length is the number of commas in the setting plus one, so it is never
    empty; an empty setting yields the single origin made of the empty
    string, not an empty list. *)
Theorem cors_origins_count (setting : option string) :
  length (cors_origins setting)
  = S (count_char "," (get_default setting default_cors_origins))
  /\ cors_origins setting <> []
  /\ cors_origins (Some EmptyString) = [EmptyString].
Proof.
  unfold cors_origins. rewrite length_map, length_split_char.
  split; [reflexivity|]. split; [|reflexivity].
  intros H. apply map_eq_nil in H. revert H. apply split_char_not_nil.
Qed.

Lemma split_char_without_sep (sep : ascii) (x : string) :
  count_char sep x = 0 -> split_char sep x = [x].
Proof.
  induction x as [|c x IH]; simpl; [reflexivity|].
  destruct (Ascii.eqb c sep); [discriminate|]. simpl. intros H. now rewrite IH.
Qed.

Lemma split_char_field (sep : ascii) (x rest : string) :
  count_char sep x = 0 ->
  split_char sep (x ++ String sep rest) = x :: split_char sep rest.
Proof.
  induction x as [|c x IH]; simpl.
  - now rewrite Ascii.eqb_refl.
  - destruct (Ascii.eqb c sep); [discriminate|]. simpl. intros H. now rewrite IH.
Qed.

Lemma split_char_join (xs : list string) :
  xs <> [] ->
  Forall (fun x => count_char "," x = 0) xs ->
  split_char "," (join "," xs) = xs.
Proof.
  induction xs as [|x xs IH]; intros Hne H; [congruence|].
  inversion H as [|? ? Hx Hxs]; subst.
  destruct xs as [|y ys].
  - simpl. now apply split_char_without_sep.
  - change (join "," (x :: y :: ys)) with (x ++ String "," (join "," (y :: ys))).
    rewrite (split_char_field _ _ _ Hx), IH; [reflexivity | discriminate | exact Hxs].
Qed.

Lemma strip_prefix_Some (p s t : string) :
  strip_prefix p s = Some t -> s = p ++ t.
Proof.
  revert s. induction p as [|a p IH]; intros s H; simpl in *; [congruence|].
  destruct s as [|b s]; [discriminate|].
  destruct (Ascii.eqb_spec a b) as [->|]; [|discriminate].
  now rewrite (IH _ H).
Qed.

Lemma strip_prefix_app (p u v x : string) :
  strip_prefix p u = Some x -> strip_prefix p (u ++ v) = Some (x ++ v).
Proof.
  revert u. induction p as [|a p IH]; intros u H; simpl in *; [congruence|].
  destruct u as [|b u]; [discriminate|]. simpl.
  destruct (Ascii.eqb a b); [now apply IH | discriminate].
Qed.

Lemma first_match_Some (ps : list string) (s t : string) :
  first_match ps s = Some t -> exists p, In p ps /\ s = p ++ t.
Proof.
  induction ps as [|p ps IH]; simpl; [discriminate|].
  destruct (strip_prefix p s) as [t'|] eqn:E.
  - intros H. injection H as <-. exists p. split; [now left | now apply strip_prefix_Some].
  - intros H. destruct (IH H) as (q & Hq & Hs). exists q. split; [now right | exact Hs].
Qed.

Lemma first_match_app (ps : list string) (u v x : string) :
  first_match ps u = Some x -> first_match ps (u ++ v) <> None.
Proof.
  induction ps as [|p ps IH]; simpl; [discriminate|].
  destruct (strip_prefix p u) as [t|] eqn:E.
  - intros _. now rewrite (strip_prefix_app _ _ v _ E).
  - intros H. destruct (strip_prefix p (u ++ v)); [discriminate | now apply IH].
Qed.

Lemma first_match_empty (ps : list string) :
  (forall p, In p ps -> p <> EmptyString) -> first_match ps EmptyString = None.
Proof.
  induction ps as [|p ps IH]; intros H; simpl; [reflexivity|].
  destruct p as [|a p]; [now elim (H EmptyString (or_introl eq_refl))|].
  apply IH. intros q Hq. apply H. now right.
Qed.

Lemma lstrip_with_done (ps : list string) :
  (forall p, In p ps -> p <> EmptyString) ->
  forall (fuel : nat) (s : string),
    String.length s <= fuel -> first_match ps (lstrip_with ps fuel s) = None.
Proof.
  intros Hps. induction fuel as [|n IH]; intros s Hlen; simpl.
  - destruct s; [now apply first_match_empty | simpl in Hlen; lia].
  - destruct (first_match ps s) as [t|] eqn:E; [|exact E].
    apply IH. destruct (first_match_Some _ _ _ E) as (p & Hp & ->).
    rewrite length_append in Hlen. specialize (Hps p Hp).
    destruct p; [congruence | simpl in Hlen; lia].
Qed.

Lemma lstrip_with_suffix (ps : list string) (fuel : nat) :
  forall s, exists u, s = u ++ lstrip_with ps fuel s.
Proof.
  induction fuel as [|n IH]; intros s; simpl; [now exists EmptyString|].
  destruct (first_match ps s) as [t|] eqn:E; [|now exists EmptyString].
  destruct (first_match_Some _ _ _ E) as (p & _ & ->).
  destruct (IH t) as (u & Hu). exists (p ++ u). now rewrite append_assoc, <- Hu.
Qed.

Lemma lstrip_with_clean (ps : list string) (fuel : nat) (s : string) :
  first_match ps s = None -> lstrip_with ps fuel s = s.
Proof. intros H. destruct fuel; simpl; [reflexivity | now rewrite H]. Qed.

Lemma rev_string_app (a b : string) :
  rev_string (a ++ b) = rev_string b ++ rev_string a.
Proof.
  induction a as [|c a IH]; simpl; [now rewrite append_nil_r|].
  now rewrite IH, append_assoc.
Qed.

Lemma rev_string_involutive (s : string) : rev_string (rev_string s) = s.
Proof.
  induction s as [|c s IH]; simpl; [reflexivity|].
  now rewrite rev_string_app, IH.
Qed.

Lemma length_rev_string (s : string) : String.length (rev_string s) = String.length s.
Proof.
  induction s as [|c s IH]; simpl; [reflexivity|].
  rewrite length_append, IH. simpl. lia.
Qed.

Lemma whitespace_nonempty (p : string) : In p whitespace -> p <> EmptyString.
Proof.
  intros H ->. revert H. unfold whitespace. cbn.
  intuition discriminate.
Qed.

Lemma rev_whitespace_nonempty (p : string) :
  In p (map rev_string whitespace) -> p <> EmptyString.
Proof.
  intros H ->. revert H. unfold whitespace. cbn.
  intuition discriminate.
Qed.

Lemma strip_is_stripped (s : string) :
  starts_with_whitespace (strip s) = false /\ ends_with_whitespace (strip s) = false.
Proof.
  unfold starts_with_whitespace, ends_with_whitespace, strip, rstrip.
  set (y := lstrip s).
  assert (Hy : first_match whitespace y = None).
  { unfold y, lstrip. apply lstrip_with_done; [exact whitespace_nonempty | lia]. }
  set (L := lstrip_with (map rev_string whitespace) (String.length y) (rev_string y)).
  split.
  - destruct (first_match whitespace (rev_string L)) as [x|] eqn:E; [|reflexivity].
    exfalso.
    destruct (lstrip_with_suffix (map rev_string whitespace) (String.length y)
                                 (rev_string y)) as (u & Hu).
    fold L in Hu.
    assert (Y : y = rev_string L ++ rev_string u).
    { rewrite <- rev_string_app, <- Hu. now rewrite rev_string_involutive. }
    apply (first_match_app _ _ (rev_string u) _ E). now rewrite <- Y.
  - rewrite rev_string_involutive. unfold L.
    rewrite lstrip_with_done; [reflexivity | exact rev_whitespace_nonempty|].
    rewrite length_rev_string. lia.
Qed.

(** X24.  Every configured origin is trimmed: no entry of the origin list
    starts or ends with a whitespace character. *)
Theorem cors_origins_are_trimmed (setting : option string) :
  Forall (fun origin => starts_with_whitespace origin = false
                        /\ ends_with_whitespace origin = false)
         (cors_origins setting).
Proof.
  unfold cors_origins. apply Forall_forall. intros origin H.
  apply in_map_iff in H as (x & <- & _). apply strip_is_stripped.
Qed.

Lemma strip_clean (s : string) :
  starts_with_whitespace s = false -> ends_with_whitespace s = false -> strip s = s.
Proof.
  unfold starts_with_whitespace, ends_with_whitespace, strip, rstrip, lstrip.
  intros H1 H2.
  destruct (first_match whitespace s) eqn:E1; [discriminate|].
  destruct (first_match (map rev_string whitespace) (rev_string s)) eqn:E2; [discriminate|].
  rewrite (lstrip_with_clean _ _ _ E1), (lstrip_with_clean _ _ _ E2).
  apply rev_string_involutive.
Qed.

(** X25.  Round trip of the setting: a non-empty list of origins, none
    containing a comma, written as one comma-separated value, is read back
    with each origin trimmed; origins that carry no outer whitespace are
    read back unchanged. *)
Theorem cors_origins_round_trip (origins : list string) :
  origins <> [] ->
  Forall (fun origin => count_char "," origin = 0) origins ->
  cors_origins (Some (join "," origins)) = map strip origins
  /\ (Forall (fun origin => starts_with_whitespace origin = false
                            /\ ends_with_whitespace origin = false) origins ->
      cors_origins (Some (join "," origins)) = origins).
Proof.
  intros Hne Hcomma.
  assert (E : cors_origins (Some (join "," origins)) = map strip origins).
  { unfold cors_origins. cbn [get_default]. now rewrite split_char_join. }
  split; [exact E|]. intros Hclean. rewrite E.
  clear E Hne Hcomma. induction Hclean as [|x xs [H1 H2] _ IH]; [reflexivity|].
  cbn [map]. now rewrite IH, strip_clean.
Qed.

Lemma cors_origins_round_trip_witness :
  cors_origins (Some "http://localhost:5173, https://example.org ")
  = ["http://localhost:5173"; "https://example.org"].
Proof.
  apply (cors_origins_round_trip ["http://localhost:5173"; " https://example.org "]).
  - discriminate.
  - repeat constructor.
Defined.

(* ===================================================================== *)
(** ** Startup failures *)

(** X27.  Startup does not catch storage failures: when counting the
    resumes fails, or when the collection is empty and inserting the seed
    fails, the store's exception leaves [initialize_resume] as it is (not
    as an HTTP error) and the world is unchanged. *)
Theorem startup_failure_propagates (env : Env) (w : World) (failure : string) :
  db_fault env ResumeCount = Some failure
  \/ (db_fault env ResumeCount = None
      /\ resume_collection w = []
      /\ db_fault env ResumeInsert = Some failure) ->
  initialize_resume env w = (Raise (External failure), w).
Proof.
  unfold initialize_resume, resume_count_documents, resume_insert_one, bind, db.
  intros [H | (Hc & He & Hi)].
  - now rewrite H.
  - rewrite Hc. cbn. rewrite He. cbn. now rewrite Hi.
Qed.

Lemma startup_failure_propagates_witness :
  initialize_resume
    (sample_env None (inl bad_gateway)
       (fun op => match op with ResumeInsert => Some "disk full" | _ => None end))
    empty_world
  = (Raise (External "disk full"), empty_world).
Proof.
  apply (startup_failure_propagates
           (sample_env None (inl bad_gateway)
              (fun op => match op with ResumeInsert => Some "disk full" | _ => None end))
           empty_world "disk full").
  right. repeat split.
Defined.
